(** * Transkribus batch recogniser: a shallow embedding of
      [recognize_with_transkribus.py] and the properties of its pipelines.

    The script runs on a single asyncio event loop.  Between two [await]s a
    coroutine runs without interruption, so every coroutine is embedded as a
    machine whose states are its suspension points and whose transitions are
    the straight-line code between them.  What the network answers and the
    order in which suspended coroutines are resumed are inputs of the model.

    Library code the script calls is modelled as follows:
    - [pathlib] (POSIX flavour): a path is its root and its name components;
    - the file system: the regular files with their contents and the set of
      directories; only the operations of the script change it;
    - [urllib.parse.urlparse]: a parameter of the development;
    - [aiohttp]: every request is one suspension, resumed with its outcome.

    Left out: logging, and the bearer token in the headers of the requests
    (the renewal task is modelled apart, on a clock of its own). *)

From Stdlib Require Import ZArith String Ascii.
From stdpp Require Import gmap strings list.

Open Scope string_scope.
Open Scope list_scope.

(** ** Exceptions and fallible code *)

Inductive exn :=
| AssertionError
| KeyError
| ValueError
| FileExistsError
| FileNotFoundError
| NotADirectoryError
| IsADirectoryError
| OtherError.

Inductive result (A : Type) :=
| Ok (a : A)
| Raise (e : exn).
Arguments Ok {A} a.
Arguments Raise {A} e.

Definition bind {A B} (r : result A) (k : A -> result B) : result B :=
  match r with
  | Ok a => k a
  | Raise e => Raise e
  end.

Notation "'do' x <- r ; k" := (bind r (fun x => k))
  (at level 10, x name, r at level 100, k at level 200).

Definition assert (b : bool) : result unit :=
  if b then Ok tt else Raise AssertionError.

(** ** Paths ([pathlib.PurePosixPath]) *)

Record path := mkPath {
  root : string;        (* empty, "/" or "//" *)
  tail : list string    (* the names below the root *)
}.

#[global] Instance Path_eq_dec : EqDecision path.
Proof. solve_decision. Defined.

#[global] Program Instance Path_countable : Countable path :=
  inj_countable' (fun p => (root p, tail p)) (fun rt => mkPath rt.1 rt.2) _.
Next Obligation. by intros []. Qed.

(** [split_sep cur s]: [(cur ++ s).split("/")], [cur] being the component
    read so far. *)
Fixpoint split_sep (cur : string) (s : string) : list string :=
  match s with
  | EmptyString => [cur]
  | String c s' =>
      if Ascii.eqb c "/" then cur :: split_sep EmptyString s'
      else split_sep (String.append cur (String c EmptyString)) s'
  end.

Definition is_name (x : string) : bool :=
  negb (String.eqb x EmptyString) && negb (String.eqb x ".").

(** [posixpath.splitroot]: one leading slash, or three and more, give the
    root "/"; exactly two give "//". *)
Definition splitroot (s : string) : string * string :=
  match s with
  | String "/" (String "/" (String "/" r)) => ("/", String "/" r)
  | String "/" (String "/" r) => ("//", r)
  | String "/" r => ("/", r)
  | _ => (EmptyString, s)
  end.

(** [Path(s)]: empty and "." components are dropped, ".." is kept. *)
Definition Path (s : string) : path :=
  let '(rt, rel) := splitroot s in
  mkPath rt (filter (fun x => is_name x = true) (split_sep EmptyString rel)).

Definition is_absolute (p : path) : bool := negb (String.eqb (root p) EmptyString).

(** [a / b]: an absolute right operand replaces the left one. *)
Definition joinpath (a b : path) : path :=
  if is_absolute b then b else mkPath (root a) (tail a ++ tail b).

(** [p.parent]: a path without names is its own parent. *)
Definition parent (p : path) : path := mkPath (root p) (removelast (tail p)).

(** ** The file system *)

(** A remote status document as returned by [response.json()]: a JSON
    object.  [status] is the value under the key "status" ([None] when the
    key is absent; a value that is not a string behaves as a string outside
    the list of the loop); [document] stands for the whole object. *)
Record payload := mkPayload {
  status : option string;
  document : string
}.

#[global] Instance payload_eq_dec : EqDecision payload.
Proof. solve_decision. Defined.

Inductive file_content :=
| Bytes (data : string)          (* a file that was there before the run *)
| JsonDump (p : payload).        (* [json.dump(p, _fh, indent=2)] *)

(** The disk is keyed by the spelling of a path.  It stands for a disk on
    which an entry has one spelling: no links, and no second way to write
    the path of an entry (see [one_spelling]).  Statements that relate the
    entries at different paths carry that as a hypothesis. *)
Record filesystem := mkFs {
  files : gmap path file_content;
  dirs : gset path
}.

Definition is_file (fs : filesystem) (p : path) : bool :=
  bool_decide (is_Some (files fs !! p)).

(** The current directory and the root always exist. *)
Definition is_dir (fs : filesystem) (p : path) : bool :=
  match tail p with
  | [] => true
  | _ => bool_decide (p ∈ dirs fs)
  end.

(** [p.exists()], for the path as it is spelled. *)
Definition exists_ (fs : filesystem) (p : path) : bool :=
  is_file fs p || is_dir fs p.

Definition add_dir (p : path) (fs : filesystem) : filesystem :=
  mkFs (files fs) ({[p]} ∪ dirs fs).

(** [mkdir_from fs r above names] creates, from the top, the directories
    [r/above/n1], [r/above/n1/n2], ... that are not there yet.  A regular
    file in the way raises, as [os.mkdir] does under [exist_ok=True] when
    the existing entry is not a directory. *)
Fixpoint mkdir_from (fs : filesystem) (r : string) (above names : list string)
  : result filesystem :=
  match names with
  | [] => Ok fs
  | n :: names' =>
      let q := mkPath r (above ++ [n]) in
      if is_file fs q then
        Raise (match names' with [] => FileExistsError | _ => NotADirectoryError end)
      else mkdir_from (add_dir q fs) r (above ++ [n]) names'
  end.

(** [p.mkdir(parents=True, exist_ok=True)] *)
Definition mkdir (fs : filesystem) (p : path) : result filesystem :=
  mkdir_from fs (root p) [] (tail p).

(** [p.open("rb").read()] *)
Definition get_image_as_base64 (fs : filesystem) (p : path) : result file_content :=
  match files fs !! p with
  | Some c => Ok c
  | None => Raise (if is_dir fs p then IsADirectoryError else FileNotFoundError)
  end.

(** [write_output]: [output_path.open("w")] then [json.dump].  The entry
    written is the one at the spelling of [output_path]. *)
Definition write_output (status_response : payload) (output_path : path)
    (fs : filesystem) : result filesystem :=
  if is_dir fs output_path then Raise IsADirectoryError
  else if negb (is_dir fs (parent output_path)) then Raise FileNotFoundError
  else Ok (mkFs (<[output_path := JsonDump status_response]> (files fs)) (dirs fs)).

(** ** Work items, requests and answers *)

(** [process_image] accepts [Path | str] for the image; [main] passes the
    [str] read from the task file. *)
Inductive image_arg :=
| Str (s : string)
| PathObj (p : path).

Record item := mkItem {
  image : image_arg;
  output_path : path
}.

(** The "image" member of the request body.  [base64 c] stands for the
    base64 text of the bytes of [c]. *)
Inductive image_field :=
| imageUrl (url : string)
| base64 (c : file_content).

(** How the POST of a submission ends: a response with its HTTP status and
    the "processId" of its JSON body ([None] for [null]), an
    [aiohttp.ClientConnectorError], or any other exception: another error
    of the client, or the [KeyError] of line 116 on a body answered with
    200 that has no "processId".  Line 122 catches the connector error
    only. *)
Inductive submit_outcome :=
| Response (http_status : Z) (processId : option string)
| SubmitConnectorError
| SubmitException.

(** How the GET of a status ends: the JSON body ([None] for [null]), an
    [aiohttp.ClientConnectorError], or any other exception. *)
Inductive status_outcome :=
| Json (body : option payload)
| StatusConnectorError
| StatusException.

Inductive kind := Processed | Failed | Skipped.

#[global] Instance kind_eq_dec : EqDecision kind.
Proof. solve_decision. Defined.

(** What a pipeline does to the outside, in program order. *)
Inductive event :=
| Mkdir (p : path)
| Post (body : image_field)
| Get (process_id : string)
| Sleep (seconds : Z)
| WriteOutput (p : path) (status_response : payload)
| Count (k : kind).

#[global] Instance file_content_eq_dec : EqDecision file_content.
Proof. solve_decision. Defined.
#[global] Instance image_field_eq_dec : EqDecision image_field.
Proof. solve_decision. Defined.
#[global] Instance event_eq_dec : EqDecision event.
Proof. solve_decision. Defined.

(** ** Module-level globals *)

Record counters := mkCounts {
  processed : nat;
  failed : nat;
  skipped : nat
}.

Record globals := mkGlobals {
  counts : counters;
  no_credits : bool;
  disk : filesystem
}.

(** [counts[k] += 1] *)
Definition incr (k : kind) (c : counters) : counters :=
  match k with
  | Processed => mkCounts (S (processed c)) (failed c) (skipped c)
  | Failed => mkCounts (processed c) (S (failed c)) (skipped c)
  | Skipped => mkCounts (processed c) (failed c) (S (skipped c))
  end.

Definition total (c : counters) : nat := processed c + failed c + skipped c.

Definition count_one (k : kind) (g : globals) : globals :=
  mkGlobals (incr k (counts g)) (no_credits g) (disk g).

Definition set_disk (fs : filesystem) (g : globals) : globals :=
  mkGlobals (counts g) (no_credits g) fs.

Definition set_no_credits (g : globals) : globals :=
  mkGlobals (counts g) true (disk g).

(** ** The pipeline of one work item *)

(** The suspension points of [process_image], named after what the
    coroutine waits for, and its two ways to end. *)
Inductive pstate :=
| Pending                                             (* not started *)
| AwaitSubmit                                         (* line 110, the POST *)
| AwaitFirstStatus (process_id : string)              (* line 179 *)
| InitialSleep (process_id : string) (status_response : option payload)  (* line 180 *)
| LoopSleep (process_id : string) (status_response : option payload)     (* line 187 *)
| AwaitNextStatus (process_id : string)               (* line 188 *)
| Returned (k : kind)
| Raised (e : exn).

(** What resumes a suspended coroutine. *)
Inductive resume :=
| Wake                                  (* first scheduling, or a timer *)
| Submitted (r : submit_outcome)
| Status (r : status_outcome).

Definition non_terminal : list string := ["CREATED"; "WAITING"; "RUNNING"].

(** [s in ["CREATED", "WAITING", "RUNNING"]] *)
Definition in_progress (s : string) : bool :=
  existsb (String.eqb s) non_terminal.

Section Pipeline.

(** [urllib.parse.urlparse]: the scheme and the network location of a URL,
    or [None] where it raises [ValueError]. *)
Variable urlparse : string -> option (string * string).

Definition truthy (s : string) : bool := negb (String.eqb s EmptyString).

Definition validate_url (url : string) : bool :=
  match urlparse url with
  | Some (scheme, netloc) => truthy scheme && truthy netloc
  | None => false
  end.

(** Lines 99-105 of [submit_image_for_processing]: the image member of the
    request body, or the failed assertion. *)
Definition request_body (img : image_arg) (fs : filesystem) : result image_field :=
  match img with
  | Str s =>
      if String.prefix "http" s then
        do _ <- assert (validate_url s);
        Ok (imageUrl s)
      else
        let p := Path s in
        do _ <- assert (exists_ fs p);
        do c <- get_image_as_base64 fs p;
        Ok (base64 c)
  | PathObj p =>
      do _ <- assert (exists_ fs p);
      do c <- get_image_as_base64 fs p;
      Ok (base64 c)
  end.

Definition step_result : Type := globals * pstate * list event.

(** Lines 190-196. *)
Definition finish (it : item) (status_response : option payload) (g : globals)
  : step_result :=
  match status_response with
  | Some p =>
      match write_output p (output_path it) (disk g) with
      | Ok fs =>
          (count_one Processed (set_disk fs g), Returned Processed,
           [WriteOutput (output_path it) p; Count Processed])
      | Raise e => (g, Raised e, [])
      end
  | None => (count_one Failed g, Returned Failed, [Count Failed])
  end.

(** The test of the [while] at line 181 and what follows it: the sleep at
    line 187, or the end of the function. *)
Definition while_test (it : item) (process_id : string)
    (status_response : option payload) (g : globals) : step_result :=
  match status_response with
  | Some p =>
      match status p with
      | None => (g, Raised KeyError, [])
      | Some s =>
          if in_progress s
          then (g, LoopSleep process_id status_response, [Sleep 5])
          else finish it status_response g
      end
  | None => finish it status_response g
  end.

(** Lines 157-172, up to the POST at line 110. *)
Definition start (it : item) (g : globals) : step_result :=
  if no_credits g then (count_one Failed g, Returned Failed, [Count Failed])
  else if exists_ (disk g) (output_path it)
  then (count_one Skipped g, Returned Skipped, [Count Skipped])
  else
    match mkdir (disk g) (parent (output_path it)) with
    | Raise e => (g, Raised e, [])
    | Ok fs =>
        let g1 := set_disk fs g in
        let made := [Mkdir (parent (output_path it))] in
        match request_body (image it) fs with
        | Raise e => (g1, Raised e, made)
        | Ok body => (g1, AwaitSubmit, (made ++ [Post body])%list)
        end
    end.

(** Lines 109-123 of [submit_image_for_processing]: what the call returns
    once the POST has ended, with the globals it leaves. *)
Definition submit_image_for_processing (r : submit_outcome) (g : globals)
  : result (option string * globals) :=
  match r with
  | Response http_status processId =>
      if (http_status =? 200)%Z then Ok (processId, g)
      else if (http_status =? 429)%Z then Ok (None, set_no_credits g)
      else Ok (None, g)
  | SubmitConnectorError => Ok (None, g)
  | SubmitException => Raise OtherError
  end.

(** Lines 172-179: from the end of the POST to the first status request. *)
Definition submitted (it : item) (r : submit_outcome) (g : globals) : step_result :=
  match submit_image_for_processing r g with
  | Raise e => (g, Raised e, [])
  | Ok (None, g1) => (count_one Failed g1, Returned Failed, [Count Failed])
  | Ok (Some process_id, g1) => (g1, AwaitFirstStatus process_id, [Get process_id])
  end.

(** [check_processing_status], lines 132-138: what [status_response]
    becomes, or the exception that escapes. *)
Definition check_processing_status (r : status_outcome) : result (option payload) :=
  match r with
  | Json body => Ok body
  | StatusConnectorError => Ok None
  | StatusException => Raise OtherError
  end.

(** One resumption of the coroutine [process_image(it)]: it runs up to its
    next suspension point or to its end.  [None]: the coroutine does not
    wait for this. *)
Definition process_image (it : item) (g : globals) (ps : pstate) (inp : resume)
  : option step_result :=
  match ps, inp with
  | Pending, Wake => Some (start it g)
  | AwaitSubmit, Submitted r => Some (submitted it r g)
  | AwaitFirstStatus pid, Status r =>
      Some match check_processing_status r with
           | Ok status_response => (g, InitialSleep pid status_response, [Sleep 5])
           | Raise e => (g, Raised e, [])
           end
  | InitialSleep pid status_response, Wake =>
      Some (while_test it pid status_response g)
  | LoopSleep pid _, Wake => Some (g, AwaitNextStatus pid, [Get pid])
  | AwaitNextStatus pid, Status r =>
      Some match check_processing_status r with
           | Ok status_response => while_test it pid status_response g
           | Raise e => (g, Raised e, [])
           end
  | _, _ => None
  end.

End Pipeline.

(** ** The bounded runner ([gather_with_concurrency]) and [main] *)

Definition suspended (ps : pstate) : bool :=
  match ps with
  | AwaitSubmit | AwaitFirstStatus _ | InitialSleep _ _
  | LoopSleep _ _ | AwaitNextStatus _ => true
  | Pending | Returned _ | Raised _ => false
  end.

Definition ended (ps : pstate) : bool :=
  match ps with
  | Returned _ | Raised _ => true
  | _ => false
  end.

(** The event loop with its tasks: the globals, the value of the
    [asyncio.Semaphore], every [sem_coroutine] with the state of the
    [process_image] it wraps, and what the tasks did so far (task number and
    event, oldest first). *)
Record world := mkWorld {
  shared : globals;
  semaphore : nat;
  tasks : list (item * pstate);
  log : list (nat * event)
}.

(** [Semaphore.acquire]: [None] while the coroutine has to wait. *)
Definition acquire (value : nat) : option nat :=
  match value with
  | O => None
  | S v => Some v
  end.

(** [Semaphore.release] *)
Definition release (value : nat) : nat := S value.

Section Runner.

Variable urlparse : string -> option (string * string).

(** One resumption of task [i], a [sem_coroutine]: [async with semaphore]
    takes a slot before [process_image] starts and gives it back when
    [process_image] returns or raises; in between the slot is kept over
    every suspension. *)
Definition sem_coroutine (w : world) (i : nat) (inp : resume) : option world :=
  match tasks w !! i with
  | None => None
  | Some (it, ps) =>
      let entered :=
        match ps with
        | Pending => acquire (semaphore w)
        | _ => Some (semaphore w)
        end in
      match entered with
      | None => None
      | Some value =>
          match process_image urlparse it (shared w) ps inp with
          | None => None
          | Some (g, ps', evs) =>
              Some (mkWorld g
                      (if ended ps' then release value else value)
                      (<[i := (it, ps')]> (tasks w))
                      (log w ++ map (pair i) evs)%list)
          end
      end
  end.

(** The event loop resumes one task at a time, in any order.  Once a task
    has raised, [main] is handed the exception and the loop stops; the few
    resumptions that happen before it does are steps like the others, so
    every world the script goes through is reachable. *)
Definition step (w w' : world) : Prop :=
  exists i inp, sem_coroutine w i inp = Some w'.

Inductive reachable (w0 : world) : world -> Prop :=
| reach_start : reachable w0 w0
| reach_step w w' : reachable w0 w -> step w w' -> reachable w0 w'.

(** A schedule run from [w]; a resumption that is not possible is skipped. *)
Fixpoint exec (w : world) (schedule : list (nat * resume)) : world :=
  match schedule with
  | [] => w
  | (i, inp) :: rest =>
      match sem_coroutine w i inp with
      | Some w' => exec w' rest
      | None => exec w rest
      end
  end.

End Runner.

(** [asyncio.Semaphore(n)] refuses a negative [n]. *)
Definition gather_with_concurrency (n : Z) (coroutines : list item) (g : globals)
  : result world :=
  if (n <? 0)%Z then Raise ValueError
  else Ok (mkWorld g (Z.to_nat n) (map (fun it => (it, Pending)) coroutines) []).

(** What [asyncio.gather] hands to [main]: nothing while tasks are running
    and none has raised, an exception as soon as a task has raised one (the
    batch is given up: [main] never reaches its summary), the counters when
    all tasks have returned. *)
Definition raised_exn (t : item * pstate) : option exn :=
  match t.2 with
  | Raised e => Some e
  | _ => None
  end.

Definition returned (t : item * pstate) : bool :=
  match t.2 with
  | Returned _ => true
  | _ => false
  end.

Definition gather_result (w : world) : option (result counters) :=
  match omap raised_exn (tasks w) with
  | e :: _ => Some (Raise e)
  | [] => if forallb returned (tasks w) then Some (Ok (counts (shared w))) else None
  end.

(** [xs[:n]] *)
Definition slice_to {A} (n : Z) (xs : list A) : list A :=
  if (0 <=? n)%Z then take (Z.to_nat n) xs
  else take (length xs - Z.to_nat (- n)) xs.

(** [for image, output_path in image_tasks] *)
Definition unpack (row : list string) : result (string * string) :=
  match row with
  | [img; out] => Ok (img, out)
  | _ => Raise ValueError
  end.

Fixpoint coroutines (output_folder : path) (image_tasks : list (list string))
  : result (list item) :=
  match image_tasks with
  | [] => Ok []
  | row :: rest =>
      do io <- unpack row;
      do its <- coroutines output_folder rest;
      Ok (mkItem (Str io.1) (joinpath output_folder (Path io.2)) :: its)
  end.

Record token := mkToken {
  access_token : option string;     (* [None]: the key is absent *)
  refresh_token : string;
  expires_in : Z
}.

Definition limited (limit : option Z) (image_tasks : list (list string))
  : list (list string) :=
  match limit with
  | Some l => slice_to l image_tasks
  | None => image_tasks
  end.

(** [main], from the two assertions on the arguments to the call of
    [gather_with_concurrency].  [image_tasks] is the list read at line 295:
    the words of every non-blank line of the task file; [tok] is the answer
    of [get_api_token]. *)
Definition main (concurrency : Z) (limit : option Z) (output_folder : string)
    (image_tasks : list (list string)) (tok : token) (fs : filesystem)
  : result world :=
  do _ <- assert (0 <? concurrency)%Z;
  do _ <- match limit with
          | Some l => assert (0 <? l)%Z
          | None => Ok tt
          end;
  do fs1 <- mkdir fs (Path output_folder);
  let image_tasks := limited limit image_tasks in
  let g := mkGlobals (mkCounts 0 0 0) false fs1 in
  do _ <- assert (bool_decide (is_Some (access_token tok)));
  do its <- coroutines (Path output_folder) image_tasks;
  gather_with_concurrency concurrency its g.

(** ** The background renewal ([token_refresh_task]) *)

(** [int(token["expires_in"] * 0.9)]: for the integers a token endpoint
    sends, the truncated double product is the truncated quotient. *)
Definition refresh_period (tok : token) : Z := Z.quot (9 * expires_in tok) 10.

(** [asyncio.sleep(d)] on a clock that only sleeping advances. *)
Definition sleep_until (now d : Z) : Z := now + Z.max 0 d.

(** The [while True] loop.  [answers] are the tokens the endpoint will
    issue, in order; the result lists every renewal with the time at which
    [refresh_api_token] is invoked.  The task dies with the failed assertion
    on an answer without access token. *)
Fixpoint refresh_loop (period : Z) (now : Z) (answers : list token)
  : list (Z * token) :=
  match answers with
  | [] => []
  | tok :: rest =>
      let t := sleep_until now period in
      (t, tok) :: match access_token tok with
                  | Some _ => refresh_loop period t rest
                  | None => []
                  end
  end.

(** [token_refresh_task] started at time 0 with the token of
    [get_api_token] in force. *)
Definition token_refresh_task (initial : token) (answers : list token)
  : list (Z * token) :=
  refresh_loop (refresh_period initial) 0 answers.

(** The tokens in force with their times of issue: the initial one at 0,
    then every renewed one. *)
Definition issued (initial : token) (answers : list token) : list (Z * token) :=
  (0%Z, initial) :: token_refresh_task initial answers.

(** The time at which the token issued at [t] ceases to be valid. *)
Definition expiry (issue : Z * token) : Z := issue.1 + expires_in issue.2.

(** ** Runs of one pipeline, and measures on logs *)

Section Runs.

Variable urlparse : string -> option (string * string).

(** The pipeline of [it] taken from one state to another by any number of
    resumptions, with the events it emitted.  The globals at each
    resumption are arbitrary: other tasks run in between. *)
Inductive run (it : item) : pstate -> list event -> pstate -> Prop :=
| run_nil ps : run it ps [] ps
| run_step ps tr ps1 g inp g' ps2 evs :
    run it ps tr ps1 ->
    process_image urlparse it g ps1 inp = Some (g', ps2, evs) ->
    run it ps (tr ++ evs)%list ps2.

(** The pipeline of [it] alone, fed with [inputs]. *)
Fixpoint play (it : item) (g : globals) (ps : pstate) (inputs : list resume)
  : step_result :=
  match inputs with
  | [] => (g, ps, [])
  | inp :: rest =>
      match process_image urlparse it g ps inp with
      | Some (g', ps', evs) =>
          let '(g'', ps'', tr) := play it g' ps' rest in
          (g'', ps'', (evs ++ tr)%list)
      | None => (g, ps, [])
      end
  end.

End Runs.

(** The events of task [i] in a log. *)
Definition events_of (i : nat) (l : list (nat * event)) : list event :=
  omap (fun e : nat * event => if decide (e.1 = i) then Some e.2 else None) l.

(** The counter increments in a sequence of events. *)
Definition counted (tr : list event) : list kind :=
  omap (fun e => match e with Count k => Some k | _ => None end) tr.

Definition is_post (e : event) : bool :=
  match e with Post _ => true | _ => false end.

Definition is_get (e : event) : bool :=
  match e with Get _ => true | _ => false end.

(** The time after [tr] on a clock that starts at [now], is set to 0 by the
    submission and advances only while the pipeline sleeps. *)
Fixpoint clock (now : Z) (tr : list event) : Z :=
  match tr with
  | [] => now
  | Sleep d :: tr' => clock (now + d) tr'
  | Post _ :: tr' => clock 0 tr'
  | _ :: tr' => clock now tr'
  end.

(** The times, on that clock, at which the status requests are issued. *)
Fixpoint request_times (now : Z) (tr : list event) : list Z :=
  match tr with
  | [] => []
  | Sleep d :: tr' => request_times (now + d) tr'
  | Post _ :: tr' => request_times 0 tr'
  | Get _ :: tr' => now :: request_times now tr'
  | _ :: tr' => request_times now tr'
  end.

(** When the code issues its [k]-th status request (from 0). *)
Definition poll_time (k : nat) : Z :=
  match k with
  | O => 0
  | S _ => 5 * Z.of_nat k + 5
  end.

Definition returned_as (k : kind) (ps : pstate) : bool :=
  match ps with
  | Returned k' => bool_decide (k' = k)
  | _ => false
  end.

(** Number of tasks that returned with disposition [k]. *)
Definition tally (k : kind) (ts : list (item * pstate)) : nat :=
  sum_list (map (fun t : item * pstate =>
                   if returned_as k t.2 then 1 else 0) ts).

(** Number of tasks past the semaphore and not at their end. *)
Definition in_flight (ts : list (item * pstate)) : nat :=
  sum_list (map (fun t : item * pstate => if suspended t.2 then 1 else 0) ts).

(** A [urlparse] for runs whose images are local files: it is never
    consulted there. *)
Definition urlparse_unused (url : string) : option (string * string) := None.


(** [isinstance(image, str) and image.startswith("http")] *)
Definition starts_with_http (img : image_arg) : bool :=
  match img with
  | Str s => String.prefix "http" s
  | PathObj _ => false
  end.

(** [Path(image)] *)
Definition local_path (img : image_arg) : path :=
  match img with
  | Str s => Path s
  | PathObj p => p
  end.

Definition is_imageUrl (body : image_field) : bool :=
  match body with
  | imageUrl _ => true
  | base64 _ => false
  end.

(** [counts[k]] *)
Definition counter (k : kind) (c : counters) : nat :=
  match k with
  | Processed => processed c
  | Failed => failed c
  | Skipped => skipped c
  end.

(** The world as [gather_with_concurrency] sets it up: no task has run. *)
Definition fresh (w : world) : Prop :=
  Forall (fun t : item * pstate => t.2 = Pending) (tasks w) /\ log w = [].

(** The clock of a pipeline at each of its suspension points, [n] being the
    number of status requests it has issued. *)
Definition on_schedule (ps : pstate) (n : nat) (now : Z) : Prop :=
  match ps with
  | Pending | AwaitSubmit => n = 0 /\ now = 0%Z
  | AwaitFirstStatus _ => n = 1 /\ now = 0%Z
  | InitialSleep _ _ => n = 1 /\ now = 5%Z
  | LoopSleep _ _ => 1 <= n /\ now = (5 * Z.of_nat n + 5)%Z
  | AwaitNextStatus _ => 2 <= n /\ now = (5 * Z.of_nat n)%Z
  | Returned _ | Raised _ => True
  end.

(** ** Scenarios *)

(** The world of a batch that [main] could start; an empty one otherwise. *)
Definition started (r : result world) : world :=
  match r with
  | Ok w => w
  | Raise _ => mkWorld (mkGlobals (mkCounts 0 0 0) false (mkFs ∅ ∅)) 0 [] []
  end.

Definition two_images : filesystem :=
  mkFs {[ Path "img1.jpg" := Bytes "first image";
          Path "img2.jpg" := Bytes "second image" ]} ∅.

Definition two_tasks : list (list string) :=
  [["img1.jpg"; "out1.json"]; ["img2.jpg"; "out2.json"]].

Definition a_token : token := mkToken (Some "access") "refresh" 300.

(** Two items, one slot, the first submission is answered 429. *)
Definition quota_start : world :=
  started (main 1 None "output" two_tasks a_token two_images).

Definition quota_schedule : list (nat * resume) :=
  [(0, Wake); (0, Submitted (Response 429 None)); (1, Wake)].

Definition quota_end : world := exec urlparse_unused quota_start quota_schedule.

(** The same batch when the second destination is already there. *)
Definition second_done : filesystem :=
  mkFs {[ Path "img1.jpg" := Bytes "first image";
          Path "img2.jpg" := Bytes "second image";
          Path "output/out2.json" := Bytes "earlier result" ]}
       {[ Path "output" ]}.

Definition existing_start : world :=
  started (main 1 None "output" two_tasks a_token second_done).

Definition existing_end : world :=
  exec urlparse_unused existing_start quota_schedule.

(** One item whose destination is already there. *)
Definition first_done : filesystem :=
  mkFs {[ Path "img1.jpg" := Bytes "first image";
          Path "output/out1.json" := Bytes "earlier result" ]}
       {[ Path "output" ]}.

Definition rerun_start : world :=
  started (main 50 None "output" [["img1.jpg"; "out1.json"]] a_token first_done).

Definition rerun_end : world := exec urlparse_unused rerun_start [(0, Wake)].

(** One item, submitted with success; the first two status requests are
    answered RUNNING, the third FINISHED. *)
Definition first_item : item := mkItem (Str "img1.jpg") (Path "output/out1.json").

Definition clean_globals : globals := mkGlobals (mkCounts 0 0 0) false two_images.

Definition running : payload := mkPayload (Some "RUNNING") "running".

Definition finished : payload := mkPayload (Some "FINISHED") "P".

Definition poll_inputs : list resume :=
  [Wake; Submitted (Response 200 (Some "42"));
   Status (Json (Some running)); Wake;
   Wake; Status (Json (Some running));
   Wake; Status (Json (Some finished))].

Definition polled : step_result :=
  play urlparse_unused first_item clean_globals Pending poll_inputs.

(** One item with a destination in a folder that is not there yet; its
    submission is answered 500. *)
Definition nested_start : world :=
  started (main 50 None "output" [["img1.jpg"; "sub/out1.json"]] a_token two_images).

Definition nested_end : world :=
  exec urlparse_unused nested_start [(0, Wake); (0, Submitted (Response 500 None))].

(** Two items, the image of the first is not on disk. *)
Definition missing_start : world :=
  started (main 2 None "output"
             [["missing.jpg"; "out1.json"]; ["img2.jpg"; "out2.json"]]
             a_token two_images).

Definition missing_end : world := exec urlparse_unused missing_start [(0, Wake)].

(** A token endpoint that issues 300 seconds first, then 60 seconds. *)
Definition long_lived : token := mkToken (Some "access-0") "refresh-0" 300.
Definition short_lived_1 : token := mkToken (Some "access-1") "refresh-1" 60.
Definition short_lived_2 : token := mkToken (Some "access-2") "refresh-2" 60.

(** ** The protocol of one pipeline *)

(** [k] more turns of the loop: a sleep, then a status request. *)
Definition rounds (pid : string) (k : nat) : list event :=
  concat (replicate k [Sleep 5; Get pid]).

(** The first status request with the sleep that follows it, then [k] turns
    of the loop. *)
Definition polling (pid : string) (k : nat) : list event :=
  Get pid :: Sleep 5 :: rounds pid k.

(** What a pipeline has done when it gets past its two checks and submits. *)
Definition opening (it : item) (body : image_field) : list event :=
  [Mkdir (parent (output_path it)); Post body].

(** The complete traces of a pipeline that returns. *)
Inductive protocol (it : item) : list event -> Prop :=
| protocol_no_credits :
    protocol it [Count Failed]
| protocol_skipped :
    protocol it [Count Skipped]
| protocol_not_accepted body :
    protocol it (opening it body ++ [Count Failed])
| protocol_lost body pid k :
    protocol it (opening it body ++ polling pid k ++ [Count Failed])
| protocol_processed body pid k p :
    protocol it (opening it body ++ polling pid k
                 ++ [WriteOutput (output_path it) p; Count Processed]).

(** The trace of a pipeline at each of its suspension points. *)
Definition trace_at (it : item) (ps : pstate) (tr : list event) : Prop :=
  match ps with
  | Pending => tr = []
  | AwaitSubmit => exists body, tr = opening it body
  | AwaitFirstStatus pid => exists body, tr = opening it body ++ [Get pid]
  | InitialSleep pid _ => exists body, tr = opening it body ++ polling pid 0
  | LoopSleep pid _ => exists body k, tr = opening it body ++ polling pid k ++ [Sleep 5]
  | AwaitNextStatus pid => exists body k, tr = opening it body ++ polling pid (S k)
  | Returned _ => protocol it tr
  | Raised _ => exists full, protocol it full /\ tr `prefix_of` full
  end.

(** The inputs of [k] turns of the loop, each answered with [p]. *)
Definition answered_with (p : payload) (k : nat) : list resume :=
  concat (replicate k [Wake; Status (Json (Some p))]).

(** ** Reading the task file (line 295 of [main]) *)

(** [str.isspace] on one character.  The text of the task file is taken as
    ASCII; among the ASCII characters the white space of [str] is the tab,
    the line feed, the vertical tab, the form feed, the carriage return,
    the four separators 28 to 31 and the space. *)
Definition isspace (c : ascii) : bool :=
  let n := nat_of_ascii c in
  (Nat.leb 9 n && Nat.leb n 13) || (Nat.leb 28 n && Nat.leb n 32).

Definition blank (s : string) : bool := forallb isspace (list_ascii_of_string s).

(** [s.lstrip()] *)
Fixpoint lstrip (s : string) : string :=
  match s with
  | String c s' => if isspace c then lstrip s' else s
  | EmptyString => EmptyString
  end.

(** [s.rstrip()] *)
Fixpoint rstrip (s : string) : string :=
  match s with
  | String c s' =>
      match rstrip s' with
      | EmptyString => if isspace c then EmptyString else String c EmptyString
      | r => String c r
      end
  | EmptyString => EmptyString
  end.

(** [s.strip()] *)
Definition strip (s : string) : string := rstrip (lstrip s).

(** The word read so far, if any. *)
Definition flush (cur : string) : list string :=
  match cur with
  | EmptyString => []
  | _ => [cur]
  end.

(** [split_from cur s]: the words of [cur ++ s], [cur] being the word read
    so far. *)
Fixpoint split_from (cur : string) (s : string) : list string :=
  match s with
  | EmptyString => flush cur
  | String c s' =>
      if isspace c then flush cur ++ split_from EmptyString s'
      else split_from (String.append cur (String c EmptyString)) s'
  end.

(** [s.split()]: the maximal runs of characters that are not white space. *)
Definition split (s : string) : list string := split_from EmptyString s.

(** [[line.strip().split() for line in _fh if line.strip()]] *)
Definition read_image_tasks (lines : list string) : list (list string) :=
  map (fun line => split (strip line))
      (filter (fun line => truthy (strip line) = true) lines).

Definition blank_free (s : string) : Prop :=
  Forall (fun c => isspace c = false) (list_ascii_of_string s).

(** A word: not empty, no white space in it. *)
Definition word (s : string) : Prop := s <> EmptyString /\ blank_free s.

(** The work item [main] makes of a row [img out]. *)
Definition task_item (output_folder : path) (img out : string) : item :=
  mkItem (Str img) (joinpath output_folder (Path out)).

(** The number of rows [main] keeps under a limit. *)
Definition kept (limit : option Z) (rows : nat) : nat :=
  match limit with
  | Some l => Nat.min (Z.to_nat l) rows
  | None => rows
  end.

(** * [druid_to_image_list.py]: the image URLs of a manifest *)

(** The parts of a IIIF manifest that [get_image_data_from_manifest]
    reads: [manifest["sequences"]], the ["canvases"] of a sequence, the
    ["images"] of a canvas, and of every image its [["resource"]["@id"]]. *)
Record canvas := mkCanvas {
  images : list string          (* the "@id" of the resource of each image *)
}.

Record sequence := mkSequence {
  canvases : list canvas
}.

Record manifest := mkManifest {
  sequences : list sequence
}.

(** [re.match] of a pattern without operators other than the dot: a dot
    takes any character but the line feed, any other character takes
    itself.  The result is what is left of the text. *)
Fixpoint match_plain (pattern text : string) : option string :=
  match pattern with
  | EmptyString => Some text
  | String p pattern' =>
      match text with
      | EmptyString => None
      | String c text' =>
          if (if Ascii.eqb p "." then negb (Ascii.eqb c "010") else Ascii.eqb p c)
          then match_plain pattern' text'
          else None
      end
  end.

(** The longest run of characters other than the slash at the start of a
    text, and what follows it: how the group [([^/]+)] reads a text when a
    slash comes next in the pattern. *)
Fixpoint up_to_slash (text : string) : string * string :=
  match text with
  | EmptyString => (EmptyString, EmptyString)
  | String c text' =>
      if Ascii.eqb c "/" then (EmptyString, text)
      else let '(name, rest) := up_to_slash text' in (String c name, rest)
  end.

(** [re.match(pattern, url)] for the pattern of line 68, and its group 1.
    The DRUID is put into the pattern as it is; it is taken to hold no
    operator of regular expressions other than the dot. *)
Definition match_image_url (druid url : string) : option string :=
  match match_plain
          (String.append "https://stacks.stanford.edu/image/iiif/"
             (String.append druid "/")) url with
  | None => None
  | Some rest =>
      let '(name, rest') := up_to_slash rest in
      match name with
      | EmptyString => None
      | _ =>
          match match_plain "/full/full/0/default.jpg" rest' with
          | Some _ => Some name
          | None => None
          end
      end
  end.

(** The loop of lines 70-87. *)
Fixpoint image_data_of (druid : string) (image_urls : list string)
  : result (list (string * string)) :=
  match image_urls with
  | [] => Ok []
  | url :: rest =>
      match match_image_url druid url with
      | None => Raise AssertionError
      | Some name =>
          do image_data <- image_data_of druid rest;
          Ok ((url, String.append druid
                      (String.append "/" (String.append name ".json")))
              :: image_data)
      end
  end.

Definition get_image_data_from_manifest (druid : string) (m : manifest)
  : result (list (string * string)) :=
  match sequences m with
  | [seq] =>
      let image_urls := concat (map images (canvases seq)) in
      do _ <- assert (Nat.eqb (length image_urls) (length (canvases seq)));
      image_data_of druid image_urls
  | _ => Raise AssertionError
  end.

Definition slash_free (s : string) : Prop :=
  Forall (fun c => c <> "/"%char) (list_ascii_of_string s).

(** The file name [f"{druid}/{name}.json"]. *)
Definition json_name (druid name : string) : string :=
  String.append druid (String.append "/" (String.append name ".json")).

(** No operator of regular expressions other than the dot. *)
Definition regex_plain (s : string) : bool :=
  forallb (fun c => negb (existsb (Ascii.eqb c)
                            (list_ascii_of_string "^$*+?{}[]\|()")))
          (list_ascii_of_string s).

(** ** More scenarios *)

(** One item and no slot. *)
Definition no_slot : world :=
  started (gather_with_concurrency 0 [first_item] clean_globals).

(** One item, submitted, answered FINISHED at the first status request. *)
Definition processed_start : world :=
  started (main 1 None "output" [["img1.jpg"; "out1.json"]] a_token two_images).

Definition processed_end : world :=
  exec urlparse_unused processed_start
    [(0, Wake); (0, Submitted (Response 200 (Some "42")));
     (0, Status (Json (Some finished))); (0, Wake)].

Definition same_lifetime : token := mkToken (Some "access-n") "refresh-n" 300.

Definition one_second : token := mkToken (Some "access-0") "refresh-0" 1.

Definition no_access : token := mkToken None "refresh-x" 300.

(** A manifest with two images on its first canvas and none on its second. *)
Definition uneven : manifest :=
  mkManifest
    [mkSequence
       [mkCanvas ["https://stacks.stanford.edu/image/iiif/ab/ab_1/full/full/0/default.jpg";
                  "https://stacks.stanford.edu/image/iiif/ab/ab_2/full/full/0/default.jpg"];
        mkCanvas []]].

(** ** Paths with one spelling *)

(** Every name of the path goes one level down: none is empty, "." or
    "..". *)
Definition direct (p : path) : bool :=
  forallb (fun name => is_name name && negb (String.eqb name "..")) (tail p).

(** Paths of which no two spell the same entry of a disk without links:
    all from the same root, every name going one level down. *)
Definition one_spelling (paths : list path) : bool :=
  forallb direct paths
  && match paths with
     | [] => true
     | p :: rest => forallb (fun q => String.eqb (root q) (root p)) rest
     end.

(** ** Counters, read field by field *)

(** From [before] to [after] the counter of [k] has gone up by one and the
    two others have stayed. *)
Definition one_more (k : kind) (before after : counters) : Prop :=
  counter k after = S (counter k before)
  /\ forall k', k' <> k -> counter k' after = counter k' before.

(** ** A batch that the limit cuts *)

(** Two rows and a limit of one; the submission is answered 429. *)
Definition cut_start : world :=
  started (main 1 (Some 1%Z) "output" two_tasks a_token two_images).

Definition cut_end : world := exec urlparse_unused cut_start quota_schedule.

(** * Properties *)

(** ** One resumption of a pipeline *)

Section StepFacts.

Variable urlparse : string -> option (string * string).

Local Abbreviation pstep := (process_image urlparse).

(** Opens a resumption into the code paths of its segment. *)
Ltac open_step H :=
  unfold process_image in H;
  repeat case_match; try discriminate;
  unfold start, submitted, submit_image_for_processing, while_test, finish,
    check_processing_status in *;
  repeat (case_match; try discriminate); simplify_eq/=.

Lemma process_image_not_ended it g ps inp r :
  pstep it g ps inp = Some r -> ended ps = false.
Proof. by destruct ps, inp. Qed.

Lemma process_image_leaves_pending it g ps inp g' ps' evs :
  pstep it g ps inp = Some (g', ps', evs) -> ps' <> Pending.
Proof. intros H. open_step H; done. Qed.

(** A resumption changes the counters exactly when the function returns,
    and then by one increment of the counter of its disposition. *)
Lemma process_image_counts it g ps inp g' ps' evs :
  pstep it g ps inp = Some (g', ps', evs) ->
  counts g' = match ps' with
              | Returned k => incr k (counts g)
              | _ => counts g
              end.
Proof. intros H. open_step H; done. Qed.

Lemma process_image_counted it g ps inp g' ps' evs :
  pstep it g ps inp = Some (g', ps', evs) ->
  counted evs = match ps' with
                | Returned k => [k]
                | _ => []
                end.
Proof. intros H. open_step H; done. Qed.

Lemma process_image_no_credits it g ps inp g' ps' evs :
  pstep it g ps inp = Some (g', ps', evs) ->
  no_credits g = true -> no_credits g' = true.
Proof. intros H Hn. open_step H; done. Qed.

End StepFacts.

(** ** The image member of a submission *)

Section Submission.

Variable urlparse : string -> option (string * string).

Lemma validate_url_parts url :
  validate_url urlparse url = true ->
  exists scheme netloc,
    urlparse url = Some (scheme, netloc) /\ scheme <> EmptyString /\ netloc <> EmptyString.
Proof.
  unfold validate_url, truthy. destruct (urlparse url) as [[scheme netloc]|]; [|done].
  intros [H1 H2]%andb_true_iff. exists scheme, netloc.
  apply negb_true_iff in H1, H2. apply String.eqb_neq in H1, H2. done.
Qed.

(** C9. The source goes out as a remote URL exactly when it is a [str]
    that begins with "http", and then [urlparse] has to give it a scheme
    and a network location; the file system is not consulted for it, so a
    local file of such a name is never read.  Every other source is a local
    path that has to exist, and the bytes read from it go out as base64.
    A source that fails its requirement raises [AssertionError]. *)
Theorem C9_source_is_url_iff_http_prefix (img : image_arg) (fs : filesystem) :
  (forall body, request_body urlparse img fs = Ok body ->
     is_imageUrl body = starts_with_http img)
  /\ (starts_with_http img = true ->
      (forall fs', request_body urlparse img fs' = request_body urlparse img fs)
      /\ forall body, request_body urlparse img fs = Ok body ->
           exists s scheme netloc,
             img = Str s /\ body = imageUrl s /\
             urlparse s = Some (scheme, netloc) /\ scheme <> EmptyString /\ netloc <> EmptyString)
  /\ (starts_with_http img = false ->
      forall body, request_body urlparse img fs = Ok body ->
        exists c, body = base64 c /\
          exists_ fs (local_path img) = true /\
          files fs !! local_path img = Some c)
  /\ (forall e, request_body urlparse img fs = Raise e ->
        e = AssertionError /\
          (if starts_with_http img
           then exists s, img = Str s /\ validate_url urlparse s = false
           else exists_ fs (local_path img) = false)
        \/ e = IsADirectoryError /\ starts_with_http img = false /\
           is_dir fs (local_path img) = true).
Proof.
  assert (Hlocal : forall p r,
    (do _ <- assert (exists_ fs p); do c <- get_image_as_base64 fs p; Ok (base64 c)) = r ->
    match r with
    | Ok body => exists c, body = base64 c /\ exists_ fs p = true /\ files fs !! p = Some c
    | Raise e => e = AssertionError /\ exists_ fs p = false
                 \/ e = IsADirectoryError /\ is_dir fs p = true
    end).
  { intros p r <-. unfold get_image_as_base64, exists_, is_file.
    destruct (files fs !! p) as [c|] eqn:Hf; simpl.
    - eauto.
    - destruct (is_dir fs p); simpl; auto. }
  destruct img as [s|p]; simpl.
  - destruct (String.prefix "http" s) eqn:Hp; simpl.
    + destruct (validate_url urlparse s) eqn:Hv; simpl.
      * repeat split; try done.
        -- by intros body [= <-].
        -- intros body [= <-]. destruct (validate_url_parts _ Hv) as (sc & nl & ?).
           exists s, sc, nl. tauto.
      * repeat split; try done. intros e [= <-]. left. eauto.
    + repeat split; try done.
      * intros body Hb. specialize (Hlocal (Path s) _ Hb) as (c & -> & _). done.
      * intros _ body Hb. exact (Hlocal (Path s) _ Hb).
      * intros e He. destruct (Hlocal (Path s) _ He) as [[-> ?]|[-> ?]]; auto.
  - repeat split; try done.
    + intros body Hb. specialize (Hlocal p _ Hb) as (c & -> & _). done.
    + intros _ body Hb. exact (Hlocal p _ Hb).
    + intros e He. destruct (Hlocal p _ He) as [[-> ?]|[-> ?]]; auto.
Qed.

End Submission.

(** ** The batch *)

Lemma sum_list_map_insert {A} (f : A -> nat) (l : list A) i x y :
  l !! i = Some x ->
  sum_list (map f (<[i:=y]> l)) + f x = sum_list (map f l) + f y.
Proof.
  revert i. induction l as [|a l IH]; intros [|i] Hi; simplify_eq/=; [lia|].
  specialize (IH _ Hi). lia.
Qed.

Lemma sum_list_map_lookup {A} (f : A -> nat) (l : list A) i x :
  l !! i = Some x -> f x <= sum_list (map f l).
Proof.
  revert i. induction l as [|a l IH]; intros [|i] Hi; simplify_eq/=; [lia|].
  specialize (IH _ Hi). lia.
Qed.

Lemma counter_incr k k' c :
  counter k (incr k' c) = counter k c + (if bool_decide (k' = k) then 1 else 0).
Proof. destruct k, k'; simpl; lia. Qed.

Lemma incr_one_more k c : one_more k c (incr k c).
Proof. split; [by destruct k|]. intros k' Hk. by destruct k, k'. Qed.

Lemma omap_insert_None {A B} (f : A -> option B) (l : list A) i x y :
  l !! i = Some x -> f x = None -> f y = None ->
  omap f (<[i := y]> l) = omap f l.
Proof.
  revert i. induction l as [|a l IH]; intros [|i] Hi Hx Hy; simplify_eq/=.
  - by rewrite Hx, Hy.
  - by rewrite (IH i).
Qed.

Lemma events_of_app i l1 l2 :
  events_of i (l1 ++ l2) = (events_of i l1 ++ events_of i l2)%list.
Proof. unfold events_of. apply omap_app. Qed.

Lemma events_of_own i evs : events_of i (map (pair i) evs) = evs.
Proof.
  unfold events_of. induction evs as [|e evs IH]; simpl; [done|].
  rewrite decide_True by done. simpl. by f_equal.
Qed.

Lemma events_of_other i j evs : i <> j -> events_of i (map (pair j) evs) = [].
Proof.
  intros Hij. unfold events_of. induction evs as [|e evs IH]; simpl; [done|].
  rewrite decide_False by done. done.
Qed.

Lemma tally_all_returned ts :
  Forall (fun t : item * pstate => exists k, t.2 = Returned k) ts ->
  tally Processed ts + tally Failed ts + tally Skipped ts = length ts.
Proof.
  unfold tally. induction 1 as [|[it ps] ts [k Hk] _ IH]; simpl in *; [done|].
  subst ps. destruct k; simpl; lia.
Qed.

Lemma coroutines_length folder rows its :
  coroutines folder rows = Ok its -> length its = length rows.
Proof.
  revert its. induction rows as [|row rows IH]; intros its H; simpl in H.
  - by simplify_eq.
  - destruct (unpack row); [|done]. simpl in H.
    destruct (coroutines folder rows) as [its'|]; [|done]. simpl in H.
    simplify_eq. simpl. f_equal. by apply IH.
Qed.

Lemma gather_fresh n its g w0 :
  gather_with_concurrency n its g = Ok w0 ->
  fresh w0 /\ shared w0 = g /\ semaphore w0 = Z.to_nat n /\
  map fst (tasks w0) = its.
Proof.
  unfold gather_with_concurrency. case_match; [done|]. intros [= <-]. simpl.
  repeat split.
  - apply Forall_forall. intros t (it & -> & _)%list_elem_of_fmap. done.
  - clear. induction its; simpl; congruence.
Qed.

Section Batch.

Variable urlparse : string -> option (string * string).

Local Abbreviation pstep := (process_image urlparse).
Local Abbreviation resume_task := (sem_coroutine urlparse).
Local Abbreviation reach := (reachable urlparse).

Lemma sem_coroutine_Some w i inp w' :
  resume_task w i inp = Some w' ->
  exists it ps ps' evs,
    tasks w !! i = Some (it, ps) /\
    pstep it (shared w) ps inp = Some (shared w', ps', evs) /\
    tasks w' = <[i := (it, ps')]> (tasks w) /\
    log w' = (log w ++ map (pair i) evs)%list /\
    semaphore w' + (if suspended ps' then 1 else 0)
      = semaphore w + (if suspended ps then 1 else 0) /\
    (ps = Pending -> 0 < semaphore w).
Proof.
  unfold sem_coroutine. intros H.
  destruct (tasks w !! i) as [[it ps]|] eqn:Hi; [|done].
  destruct (match ps with Pending => acquire (semaphore w) | _ => Some (semaphore w) end)
    as [value|] eqn:Hv; [|done].
  destruct (pstep it (shared w) ps inp) as [[[g ps'] evs]|] eqn:Hs; [|done].
  simplify_eq. exists it, ps, ps', evs. simpl. repeat split; try done.
  - pose proof (process_image_leaves_pending _ _ _ _ _ _ _ _ Hs) as Hne.
    pose proof (process_image_not_ended _ _ _ _ _ _ Hs) as Hend.
    destruct ps; try done; simplify_eq/=;
      try (destruct (semaphore w); simplify_eq/=);
      destruct ps'; simpl; unfold release; try done; lia.
  - intros ->. destruct (semaphore w); simplify_eq/=; lia.
Qed.

(** One resumption of a task, seen from the batch: the task alone changes
    its state, its events go to the end of the log, and the counters move
    exactly when the pipeline returns, by one on the counter of its
    disposition. *)
Lemma sem_coroutine_task w i inp w' it ps :
  tasks w !! i = Some (it, ps) ->
  resume_task w i inp = Some w' ->
  exists ps' evs,
    pstep it (shared w) ps inp = Some (shared w', ps', evs) /\
    tasks w' !! i = Some (it, ps') /\
    tasks w' = <[i := (it, ps')]> (tasks w) /\
    log w' = log w ++ map (pair i) evs /\
    match ps' with
    | Returned k => one_more k (counts (shared w)) (counts (shared w'))
    | _ => counts (shared w') = counts (shared w)
    end.
Proof.
  intros Hi (it' & ps0 & ps' & evs & Hi' & Hs & Ht & Hl & _)%sem_coroutine_Some.
  rewrite Hi in Hi'. simplify_eq. exists ps', evs.
  split; [done|]. split.
  { rewrite Ht. apply list_lookup_insert_eq. by eapply lookup_lt_Some. }
  split; [done|]. split; [done|].
  rewrite (process_image_counts _ _ _ _ _ _ _ _ Hs).
  destruct ps'; try done. apply incr_one_more.
Qed.

Lemma exec_reachable w schedule : reach w (exec urlparse w schedule).
Proof.
  assert (forall w', reach w w' -> reach w (exec urlparse w' schedule)) as H;
    [|apply H; constructor].
  induction schedule as [|[i inp] rest IH]; intros w' Hw'; simpl; [done|].
  destruct (resume_task w' i inp) as [w''|] eqn:Hs; [|by apply IH].
  apply IH. eapply reach_step; [done|]. by exists i, inp.
Qed.

(** The items of the tasks never change. *)
Lemma reachable_items w0 w :
  reach w0 w -> map fst (tasks w) = map fst (tasks w0).
Proof.
  induction 1 as [|w w' _ IH (i & inp & Hs)]; [done|].
  apply sem_coroutine_Some in Hs as (it & ps & ps' & evs & Hi & _ & -> & _).
  rewrite <- IH. rewrite list_fmap_insert. simpl.
  apply list_insert_id. rewrite list_lookup_fmap, Hi. done.
Qed.

(** Slots in use and free slots add up to the size of the semaphore. *)
Lemma reachable_slots w0 w :
  reach w0 w ->
  in_flight (tasks w) + semaphore w = in_flight (tasks w0) + semaphore w0.
Proof.
  induction 1 as [|w w' _ IH (i & inp & Hs)]; [done|].
  apply sem_coroutine_Some in Hs as (it & ps & ps' & evs & Hi & _ & Ht & _ & Hsem & _).
  rewrite <- IH, Ht. unfold in_flight.
  pose proof (sum_list_map_insert
    (fun t : item * pstate => if suspended t.2 then 1 else 0) _ _ _ (it, ps') Hi) as Hsum.
  simpl in Hsum. lia.
Qed.

(** Every counter is its initial value plus the number of tasks that
    returned with that disposition. *)
Lemma reachable_counts k w0 w :
  fresh w0 -> reach w0 w ->
  counter k (counts (shared w)) = counter k (counts (shared w0)) + tally k (tasks w).
Proof.
  intros [Hfresh _]. induction 1 as [|w w' _ IH (i & inp & Hs)].
  - replace (tally k (tasks w0)) with 0; [lia|].
    unfold tally. induction Hfresh as [|[it ps] ts Hp _ IHts]; simpl in *; [done|].
    subst ps. simpl. done.
  - apply sem_coroutine_Some in Hs as (it & ps & ps' & evs & Hi & Hs & Ht & _).
    pose proof (process_image_counts _ _ _ _ _ _ _ _ Hs) as Hc.
    pose proof (process_image_not_ended _ _ _ _ _ _ Hs) as Hend.
    pose proof (sum_list_map_insert
      (fun t : item * pstate => if returned_as k t.2 then 1 else 0) _ _ _ (it, ps') Hi) as Hsum.
    simpl in Hsum. rewrite Ht. unfold tally in *. rewrite Hc.
    assert (returned_as k ps = false) as Hps by (by destruct ps).
    rewrite Hps in Hsum.
    destruct ps'; simpl in *; try lia.
    rewrite counter_incr. lia.
Qed.

(** What a task has logged is a run of its pipeline from the start. *)
Lemma reachable_run w0 w i it ps :
  fresh w0 -> reach w0 w ->
  tasks w !! i = Some (it, ps) ->
  run urlparse it Pending (events_of i (log w)) ps.
Proof.
  intros [Hfresh Hlog] Hr. revert it ps.
  induction Hr as [|w w' _ IH (j & inp & Hs)]; intros it ps Hi.
  - rewrite Hlog. simpl.
    rewrite Forall_lookup in Hfresh. specialize (Hfresh _ _ Hi). simpl in Hfresh.
    subst. constructor.
  - apply sem_coroutine_Some in Hs as (itj & psj & psj' & evs & Hj & Hs & Ht & Hl & _).
    rewrite Hl, events_of_app. rewrite Ht in Hi.
    destruct (decide (i = j)) as [->|Hij].
    + rewrite list_lookup_insert_eq in Hi by (by eapply lookup_lt_Some).
      simplify_eq. rewrite events_of_own. eapply run_step; [by apply IH|done].
    + rewrite list_lookup_insert_ne in Hi by done.
      rewrite events_of_other by done. rewrite app_nil_r. by apply IH.
Qed.

End Batch.

Lemma limited_take limit rows :
  (forall l, limit = Some l -> (0 < l)%Z) ->
  limited limit rows = take (kept limit (length rows)) rows.
Proof.
  intros Hpos. destruct limit as [l|]; simpl.
  - specialize (Hpos l eq_refl). unfold slice_to.
    destruct (0 <=? l)%Z eqn:Hl; [|lia].
    destruct (decide (Z.to_nat l <= length rows)).
    + by rewrite Nat.min_l.
    + rewrite Nat.min_r by lia. rewrite firstn_all. apply take_ge. lia.
  - by rewrite firstn_all.
Qed.

(** ** Counters (C1) and the concurrency bound (C4) *)

Section Accounting.

Variable urlparse : string -> option (string * string).

Lemma run_counted it tr ps :
  run urlparse it Pending tr ps ->
  counted tr = match ps with
               | Returned k => [k]
               | _ => []
               end.
Proof.
  remember Pending as ps0 eqn:Hps0.
  induction 1 as [|ps0 tr ps1 g inp g' ps2 evs _ IH Hs]; [by subst|].
  specialize (IH Hps0). unfold counted in *. rewrite omap_app, IH.
  pose proof (process_image_not_ended _ _ _ _ _ _ Hs) as Hend.
  pose proof (process_image_counted _ _ _ _ _ _ _ _ Hs) as Hc.
  unfold counted in Hc. rewrite Hc. by destruct ps1.
Qed.

Lemma main_Ok concurrency limit output_folder image_tasks tok fs w0 :
  main concurrency limit output_folder image_tasks tok fs = Ok w0 ->
  exists its g,
    gather_with_concurrency concurrency its g = Ok w0 /\
    length its = length (limited limit image_tasks) /\
    counts g = mkCounts 0 0 0 /\ no_credits g = false /\ (0 < concurrency)%Z.
Proof.
  unfold main. intros H.
  destruct (0 <? concurrency)%Z eqn:Hc; [|done]. simpl in H.
  destruct (match limit with Some l => assert (0 <? l)%Z | None => Ok tt end); [|done].
  simpl in H. destruct (mkdir fs (Path output_folder)) as [fs1|]; [|done].
  simpl in H. destruct (assert (bool_decide (is_Some (access_token tok)))); [|done].
  simpl in H.
  destruct (coroutines (Path output_folder) (limited limit image_tasks))
    as [its|] eqn:Hits; [|done].
  simpl in H. eexists _, _. split; [exact H|]. simpl.
  repeat split; [by eapply coroutines_length | by apply Z.ltb_lt].
Qed.

Lemma main_limit concurrency limit output_folder image_tasks tok fs w0 :
  main concurrency limit output_folder image_tasks tok fs = Ok w0 ->
  forall l, limit = Some l -> (0 < l)%Z.
Proof.
  unfold main. intros H l ->.
  destruct (0 <? concurrency)%Z; [|done]. simpl in H.
  destruct (0 <? l)%Z eqn:Hl; [|done]. by apply Z.ltb_lt.
Qed.

Lemma kept_le limit rows : kept limit rows <= rows.
Proof. unfold kept. destruct limit; lia. Qed.

(** C1. When every pipeline of the batch has returned (none raised, none
    is still running), the three counters add up to the number of work
    items taken from the input under the optional limit: all rows without
    a limit, the smaller of the limit and the number of rows with one.
    Each counter is the number of pipelines that ended with its
    disposition, and every pipeline has incremented a counter once, the one
    of its disposition. *)
Theorem C1_counters_add_up (concurrency : Z) (limit : option Z)
    (output_folder : string) (image_tasks : list (list string)) (tok : token)
    (fs : filesystem) (w0 w : world) :
  main concurrency limit output_folder image_tasks tok fs = Ok w0 ->
  reachable urlparse w0 w ->
  Forall (fun t : item * pstate => exists k, t.2 = Returned k) (tasks w) ->
  total (counts (shared w)) = kept limit (length image_tasks)
  /\ (forall k, counter k (counts (shared w)) = tally k (tasks w))
  /\ (forall i it k, tasks w !! i = Some (it, Returned k) ->
        counted (events_of i (log w)) = [k]).
Proof.
  intros Hmain Hr Hall.
  pose proof (main_limit _ _ _ _ _ _ _ Hmain) as Hpos.
  apply main_Ok in Hmain as (its & g & Hg & Hlen & Hc0 & _ & _).
  apply gather_fresh in Hg as (Hfresh & Hsh & _ & Hits).
  assert (forall k, counter k (counts (shared w)) = tally k (tasks w)) as Hk.
  { intros k. rewrite (reachable_counts urlparse k w0 w Hfresh Hr), Hsh, Hc0.
    by destruct k. }
  split; [|split; [done|]].
  - unfold total.
    change (counter Processed (counts (shared w)) + counter Failed (counts (shared w))
            + counter Skipped (counts (shared w)) = kept limit (length image_tasks)).
    rewrite !Hk, tally_all_returned by done.
    rewrite <- (length_map fst), (reachable_items urlparse w0 w Hr), Hits, Hlen.
    rewrite limited_take by done. rewrite length_take.
    pose proof (kept_le limit (length image_tasks)). lia.
  - intros i it k Hi.
    apply (run_counted it _ (Returned k)). by eapply reachable_run.
Qed.

(** C4. With a limit [n > 0], the pipelines between their start and their
    end and the free slots of the semaphore always add up to [n], so at most
    [n] pipelines are in flight; a pipeline only starts while a slot is
    free, and it holds its slot until it returns or raises. *)
Theorem C4_at_most_n_in_flight (n : Z) (its : list item) (g : globals)
    (w0 w : world) :
  (0 < n)%Z ->
  gather_with_concurrency n its g = Ok w0 ->
  reachable urlparse w0 w ->
  in_flight (tasks w) + semaphore w = Z.to_nat n
  /\ in_flight (tasks w) <= Z.to_nat n
  /\ (forall i it inp w',
        tasks w !! i = Some (it, Pending) ->
        sem_coroutine urlparse w i inp = Some w' ->
        in_flight (tasks w) < Z.to_nat n)
  /\ (forall i inp w' it ps,
        sem_coroutine urlparse w i inp = Some w' ->
        tasks w' !! i = Some (it, ps) ->
        suspended ps = true ->
        semaphore w' + in_flight (tasks w') = Z.to_nat n /\ 0 < in_flight (tasks w')).
Proof.
  intros Hn (Hfresh & _ & Hsem & _)%gather_fresh Hr.
  assert (in_flight (tasks w0) = 0) as H0.
  { destruct Hfresh as [Hp _]. unfold in_flight.
    induction Hp as [|[it ps] ts Hp _ IH]; simpl in *; [done|]. by subst. }
  assert (forall w1, reachable urlparse w0 w1 ->
            in_flight (tasks w1) + semaphore w1 = Z.to_nat n) as Hinv.
  { intros w1 Hr1. rewrite (reachable_slots urlparse w0 w1 Hr1). lia. }
  pose proof (Hinv w Hr) as Hw.
  split; [done|]. split; [lia|]. split.
  - intros i it inp w' Hi Hs.
    apply sem_coroutine_Some in Hs as (it' & ps & ps' & evs & Hi' & _ & _ & _ & _ & Hfree).
    rewrite Hi in Hi'. simplify_eq. specialize (Hfree eq_refl). lia.
  - intros i inp w' it ps Hs Hi Hsusp.
    assert (reachable urlparse w0 w') as Hr'.
    { eapply reach_step; [done|]. by exists i, inp. }
    specialize (Hinv w' Hr'). split; [lia|].
    unfold in_flight.
    pose proof (sum_list_map_lookup
      (fun t : item * pstate => if suspended t.2 then 1 else 0) _ _ _ Hi) as Hsum.
    simpl in Hsum. rewrite Hsusp in Hsum. lia.
Qed.

End Accounting.

Lemma quota_start_main :
  main 1 None "output" two_tasks a_token two_images = Ok quota_start.
Proof. vm_compute. reflexivity. Qed.

Lemma C1_counters_add_up_witness :
  total (counts (shared cut_end)) = kept (Some 1%Z) (length two_tasks)
  /\ kept (Some 1%Z) (length two_tasks) = 1.
Proof.
  split; [|reflexivity].
  refine (proj1 (C1_counters_add_up urlparse_unused 1 (Some 1%Z) "output" two_tasks
                   a_token two_images cut_start cut_end
                   _ (exec_reachable _ _ _) _)).
  - vm_compute. reflexivity.
  - vm_compute. repeat constructor; eexists; reflexivity.
Defined.

Lemma C4_at_most_n_in_flight_witness :
  in_flight (tasks quota_end) <= 1.
Proof.
  refine (proj1 (proj2 (C4_at_most_n_in_flight urlparse_unused 1
                   (map fst (tasks quota_start)) (shared quota_start)
                   quota_start quota_end _ _ (exec_reachable _ _ _)))).
  - reflexivity.
  - vm_compute. reflexivity.
Defined.

Lemma C9_source_is_url_iff_http_prefix_witness :
  is_imageUrl (base64 (Bytes "first image")) = starts_with_http (Str "img1.jpg")
  /\ is_imageUrl (imageUrl "https://example.org/a.jpg")
     = starts_with_http (Str "https://example.org/a.jpg").
Proof.
  split.
  - refine (proj1 (C9_source_is_url_iff_http_prefix urlparse_unused
                     (Str "img1.jpg") two_images) _ _).
    vm_compute. reflexivity.
  - refine (proj1 (C9_source_is_url_iff_http_prefix
                     (fun _ => Some ("https", "example.org"))
                     (Str "https://example.org/a.jpg") two_images) _ _).
    vm_compute. reflexivity.
Defined.

(** ** The file system under the pipelines *)

Lemma mkdir_from_spec fs r above names fs' :
  mkdir_from fs r above names = Ok fs' ->
  files fs' = files fs /\ dirs fs ⊆ dirs fs' /\
  (names <> [] -> mkPath r (above ++ names) ∈ dirs fs').
Proof.
  revert fs above. induction names as [|n names IH]; intros fs above H; simpl in H.
  - simplify_eq. done.
  - destruct (is_file fs (mkPath r (above ++ [n]))); [done|].
    apply IH in H as (Hf & Hd & Hlast). simpl in *.
    assert (dirs fs ⊆ dirs fs') as Hsub.
    { intros x Hx. apply Hd. apply elem_of_union. by right. }
    split; [done|]. split; [done|]. intros _.
    destruct names as [|n' names].
    + apply Hd. apply elem_of_union. left. by apply elem_of_singleton.
    + rewrite <- app_assoc in Hlast. apply Hlast. done.
Qed.

Lemma mkdir_spec fs p fs' :
  mkdir fs p = Ok fs' ->
  files fs' = files fs /\ dirs fs ⊆ dirs fs' /\ is_dir fs' p = true.
Proof.
  unfold mkdir. intros (Hf & Hd & Hlast)%mkdir_from_spec.
  split; [done|]. split; [done|]. unfold is_dir.
  destruct p as [r names]. simpl in *.
  destruct names as [|n names]; [done|].
  apply bool_decide_eq_true_2. by apply Hlast.
Qed.

Lemma is_dir_mono fs fs' p :
  dirs fs ⊆ dirs fs' -> is_dir fs p = true -> is_dir fs' p = true.
Proof.
  unfold is_dir. destruct (tail p); [done|].
  intros Hsub Hd%bool_decide_eq_true_1. apply bool_decide_eq_true_2. by apply Hsub.
Qed.

Lemma exists_mono fs fs' p :
  files fs' !! p = files fs !! p -> dirs fs ⊆ dirs fs' ->
  exists_ fs p = true -> exists_ fs' p = true.
Proof.
  unfold exists_, is_file. intros -> Hsub [H|H]%orb_true_iff; apply orb_true_iff.
  - by left.
  - right. by eapply is_dir_mono.
Qed.

Section DiskFacts.

Variable urlparse : string -> option (string * string).

Local Abbreviation pstep := (process_image urlparse).

(** Directories are only added; the files change in one way only: the
    pipeline that returns as processed writes its own destination. *)
Lemma process_image_disk it g ps inp g' ps' evs :
  pstep it g ps inp = Some (g', ps', evs) ->
  dirs (disk g) ⊆ dirs (disk g') /\
  (files (disk g') = files (disk g) /\
     (forall q p, WriteOutput q p ∉ evs) /\ ps' <> Returned Processed
   \/ exists p, suspended ps = true /\ ps' = Returned Processed /\
        files (disk g') = <[output_path it := JsonDump p]> (files (disk g)) /\
        evs = [WriteOutput (output_path it) p; Count Processed]).
Proof.
  intros H. unfold process_image in H.
  destruct ps, inp; try discriminate;
    unfold start, submitted, submit_image_for_processing, check_processing_status, while_test, finish,
      write_output in H;
    repeat case_match; simplify_eq/=;
    try match goal with
        | Hm : mkdir _ _ = Ok _ |- _ => apply mkdir_spec in Hm as (? & ? & ?)
        end;
    (split; [done|]);
    first [ right; eexists; done
          | left; split; [done|split; [|done]]; intros q p' Hin;
            repeat (apply elem_of_cons in Hin as [?|Hin]; [done|]);
            by apply elem_of_nil in Hin ].
Qed.

(** A pipeline that gets past its two checks found neither the flag set
    nor its destination in place. *)
Lemma process_image_started it g inp g' ps' evs :
  pstep it g Pending inp = Some (g', ps', evs) ->
  if no_credits g then ps' = Returned Failed /\ evs = [Count Failed] /\ disk g' = disk g
  else if exists_ (disk g) (output_path it)
  then ps' = Returned Skipped /\ evs = [Count Skipped] /\ disk g' = disk g
  else ps' <> Returned Skipped /\ ps' <> Returned Failed.
Proof.
  intros H. destruct inp; try discriminate. simpl in H. unfold start in H.
  repeat case_match; simplify_eq/=; done.
Qed.

End DiskFacts.

(** ** Quota exhaustion (C2) *)

Section Quota.

Variable urlparse : string -> option (string * string).

Lemma run_pending_nil it tr : run urlparse it Pending tr Pending -> tr = [].
Proof.
  inversion 1 as [|? ? ? ? ? ? ? ? _ Hs]; [done|].
  by apply process_image_leaves_pending in Hs.
Qed.

Lemma quota_answer_sets_flag w i pid w' :
  sem_coroutine urlparse w i (Submitted (Response 429 pid)) = Some w' ->
  no_credits (shared w') = true.
Proof.
  intros (it & ps & ps' & evs & _ & Hs & _)%sem_coroutine_Some.
  destruct ps; try discriminate. simpl in Hs.
  injection Hs as Hg _ _. by rewrite <- Hg.
Qed.

(** What becomes of a task that had not started when the flag was seen
    set. *)
Lemma reachable_after_quota w w' i it :
  reachable urlparse w w' ->
  no_credits (shared w) = true ->
  tasks w !! i = Some (it, Pending) ->
  events_of i (log w) = [] ->
  no_credits (shared w') = true /\
  (tasks w' !! i = Some (it, Pending) /\ events_of i (log w') = []
   \/ tasks w' !! i = Some (it, Returned Failed) /\
      events_of i (log w') = [Count Failed]).
Proof.
  intros Hr Hflag Hi Hlog.
  induction Hr as [|w1 w2 _ [IHflag IH] (j & inp & Hs)]; [by auto|].
  apply sem_coroutine_Some in Hs as (itj & psj & psj' & evs & Hj & Hs & Ht & Hl & _).
  split; [by eapply process_image_no_credits|].
  rewrite Ht, Hl, events_of_app.
  destruct (decide (i = j)) as [->|Hij].
  - rewrite list_lookup_insert_eq by (by eapply lookup_lt_Some).
    rewrite events_of_own.
    destruct IH as [[Hp He]|[Hp He]]; rewrite Hp in Hj; simplify_eq.
    apply process_image_started in Hs. rewrite IHflag in Hs.
    destruct Hs as (-> & -> & _). right. by rewrite He.
  - rewrite list_lookup_insert_ne by done.
    rewrite events_of_other by done. by rewrite app_nil_r.
Qed.

(** C2. A submission answered 429 sets the flag, and no resumption of any
    pipeline clears it.  Once it is set, a pipeline that has not started
    yet can only end as failed, without having issued any request: its
    whole log is that one count.  Its start is the resumption that counts
    it: the counter of failed items goes up by one, the two others stay,
    the disk stays, and the count is all the log gains.  Throughout, each
    counter is its value before the batch plus the number of pipelines
    that returned with that disposition. *)
Theorem C2_quota_exhaustion_is_sticky (n : Z) (its : list item) (g : globals)
    (w0 w w' : world) :
  gather_with_concurrency n its g = Ok w0 ->
  reachable urlparse w0 w ->
  no_credits (shared w) = true ->
  reachable urlparse w w' ->
  no_credits (shared w') = true
  /\ (forall i it, tasks w !! i = Some (it, Pending) ->
        tasks w' !! i = Some (it, Pending) /\ events_of i (log w') = []
        \/ tasks w' !! i = Some (it, Returned Failed) /\
           events_of i (log w') = [Count Failed])
  /\ (forall i it inp v,
        tasks w' !! i = Some (it, Pending) ->
        sem_coroutine urlparse w' i inp = Some v ->
        tasks v !! i = Some (it, Returned Failed)
        /\ one_more Failed (counts (shared w')) (counts (shared v))
        /\ disk (shared v) = disk (shared w')
        /\ log v = log w' ++ [(i, Count Failed)])
  /\ (forall k, counter k (counts (shared w'))
                = counter k (counts g) + tally k (tasks w'))
  /\ (forall v i pid v',
        sem_coroutine urlparse v i (Submitted (Response 429 pid)) = Some v' ->
        no_credits (shared v') = true).
Proof.
  intros (Hfresh & Hsh & _)%gather_fresh Hr Hflag Hr'.
  assert (no_credits (shared w') = true) as Hflag'.
  { clear Hr. induction Hr' as [|w1 w2 _ IH (j & inp & Hs)]; [done|].
    apply sem_coroutine_Some in Hs as (? & ? & ? & ? & _ & Hs & _).
    by eapply process_image_no_credits. }
  split; [done|]. split; [|split; [|split]].
  - intros i it Hi.
    eapply reachable_after_quota; [done..|].
    eapply run_pending_nil. by eapply reachable_run.
  - intros i it inp v Hi Hstep.
    destruct (sem_coroutine_task urlparse _ _ _ _ _ _ Hi Hstep)
      as (ps' & evs & Hs & Hi' & _ & Hl & Hc).
    apply process_image_started in Hs. rewrite Hflag' in Hs.
    destruct Hs as (-> & -> & Hd). done.
  - intros k. rewrite <- Hsh. apply (reachable_counts urlparse); [done|].
    clear Hflag Hflag'. induction Hr' as [|w1 w2 _ IH Hs]; [done|].
    by eapply reach_step.
  - intros v i pid v'. apply quota_answer_sets_flag.
Qed.

End Quota.

Lemma C2_quota_exhaustion_is_sticky_witness :
  tasks quota_end !! 1 =
    Some (mkItem (Str "img2.jpg") (Path "output/out2.json"), Returned Failed)
  /\ counter Failed (counts (shared quota_end)) = 2
  /\ counter Skipped (counts (shared quota_end)) = 0
  /\ log quota_end
     = log (exec urlparse_unused quota_start (take 2 quota_schedule))
       ++ [(1, Count Failed)].
Proof.
  pose (w := exec urlparse_unused quota_start (take 2 quota_schedule)).
  destruct (proj1 (proj2 (proj2 (C2_quota_exhaustion_is_sticky urlparse_unused 1
              (map fst (tasks quota_start)) (shared quota_start)
              quota_start w w
              ltac:(vm_compute; reflexivity)
              (exec_reachable _ _ _)
              ltac:(vm_compute; reflexivity)
              (reach_start _ _))))
            1 (mkItem (Str "img2.jpg") (Path "output/out2.json")) Wake quota_end
            ltac:(vm_compute; reflexivity) ltac:(vm_compute; reflexivity))
    as (Ht & [Hone Hkept] & _ & Hl).
  split; [exact Ht|]. split; [|split; [|exact Hl]].
  - etransitivity; [exact Hone|]. vm_compute. reflexivity.
  - etransitivity; [exact (Hkept Skipped ltac:(discriminate))|].
    vm_compute. reflexivity.
Defined.

(** ** Destinations that are already there (C3) *)

Section Resumption.

Variable urlparse : string -> option (string * string).

(** A path that exists when the batch starts keeps its entry, and the
    pipelines that have it as destination never get past their checks. *)
Lemma reachable_existing w0 w p :
  fresh w0 -> reachable urlparse w0 w ->
  exists_ (disk (shared w0)) p = true ->
  files (disk (shared w)) !! p = files (disk (shared w0)) !! p
  /\ dirs (disk (shared w0)) ⊆ dirs (disk (shared w))
  /\ (forall j itj psj,
        tasks w !! j = Some (itj, psj) -> output_path itj = p ->
        psj = Pending /\ events_of j (log w) = []
        \/ psj = Returned Skipped /\ events_of j (log w) = [Count Skipped]
        \/ psj = Returned Failed /\ events_of j (log w) = [Count Failed] /\
           no_credits (shared w) = true).
Proof.
  intros [Hfresh Hlog] Hr Hex.
  induction Hr as [|w1 w2 _ (IHf & IHd & IHt) (j & inp & Hs)].
  - split; [done|]. split; [done|]. intros j itj psj Hj _. left.
    rewrite Forall_lookup in Hfresh. specialize (Hfresh _ _ Hj). simpl in Hfresh.
    by rewrite Hlog.
  - apply sem_coroutine_Some in Hs as (itj & psj & psj' & evs & Hj & Hs & Ht & Hl & _).
    pose proof (exists_mono _ _ _ IHf IHd Hex) as Hex1.
    destruct (process_image_disk _ _ _ _ _ _ _ _ Hs) as [Hdirs Hfiles].
    split; [|split].
    + destruct Hfiles as [(-> & _)|(pl & Hsusp & _ & -> & _)]; [done|].
      rewrite lookup_insert_ne; [done|]. intros Heq.
      destruct (IHt _ _ _ Hj Heq) as [[-> _]|[[-> _]|[-> _]]]; done.
    + etrans; done.
    + intros k itk psk Hk Hp. rewrite Ht in Hk. rewrite Hl, events_of_app.
      destruct (decide (k = j)) as [->|Hkj].
      * rewrite list_lookup_insert_eq in Hk by (by eapply lookup_lt_Some).
        simplify_eq. rewrite events_of_own.
        destruct (IHt _ _ _ Hj eq_refl) as [[-> He]|[[-> _]|[-> _]]];
          [|by apply process_image_not_ended in Hs..].
        rewrite He. simpl.
        pose proof (process_image_no_credits _ _ _ _ _ _ _ _ Hs) as Hmono.
        apply process_image_started in Hs.
        destruct (no_credits (shared w1)).
        -- destruct Hs as (-> & -> & _). right. right. auto.
        -- rewrite Hex1 in Hs. destruct Hs as (-> & -> & _). right. left. auto.
      * rewrite list_lookup_insert_ne in Hk by done.
        rewrite events_of_other by done. rewrite app_nil_r.
        destruct (IHt _ _ _ Hk Hp) as [?|[?|(? & ? & Hn)]]; [by left|by right; left|].
        right. right. split; [done|]. split; [done|].
        by eapply process_image_no_credits.
Qed.

(** C3, amended.  A work item whose destination exists before the run
    never issues a request, and its destination is still there in every
    later world; where the destinations of the batch are spelled in one way
    only, the entry at the destination stays as it was.  The resumption
    that starts the pipeline ends it: as skipped when the no-credits flag is
    not set at that moment, as failed when it is, the flag being tested
    first.  That resumption adds one to the counter of the disposition,
    leaves the two others and the disk alone, and logs the one count. *)
Theorem C3_existing_destination_is_kept (n : Z) (its : list item) (g : globals)
    (w0 w : world) (i : nat) (it : item) :
  gather_with_concurrency n its g = Ok w0 ->
  reachable urlparse w0 w ->
  its !! i = Some it ->
  exists_ (disk g) (output_path it) = true ->
  (one_spelling (map output_path its) = true ->
     files (disk (shared w)) !! output_path it = files (disk g) !! output_path it)
  /\ exists_ (disk (shared w)) (output_path it) = true
  /\ Forall (fun e => is_post e = false) (events_of i (log w))
  /\ (tasks w !! i = Some (it, Pending) /\ events_of i (log w) = []
      \/ tasks w !! i = Some (it, Returned Skipped) /\
         events_of i (log w) = [Count Skipped]
      \/ tasks w !! i = Some (it, Returned Failed) /\
         events_of i (log w) = [Count Failed] /\ no_credits (shared w) = true)
  /\ (forall inp w',
        tasks w !! i = Some (it, Pending) ->
        sem_coroutine urlparse w i inp = Some w' ->
        disk (shared w') = disk (shared w)
        /\ (no_credits (shared w) = false ->
              tasks w' !! i = Some (it, Returned Skipped)
              /\ one_more Skipped (counts (shared w)) (counts (shared w'))
              /\ log w' = log w ++ [(i, Count Skipped)])
        /\ (no_credits (shared w) = true ->
              tasks w' !! i = Some (it, Returned Failed)
              /\ one_more Failed (counts (shared w)) (counts (shared w'))
              /\ log w' = log w ++ [(i, Count Failed)])).
Proof.
  intros (Hfresh & Hsh & _ & Hits)%gather_fresh Hr Hi Hex. subst g.
  destruct (reachable_existing w0 w _ Hfresh Hr Hex) as (Hf & Hd & Ht).
  pose proof (exists_mono _ _ _ Hf Hd Hex) as Hex'.
  assert (exists ps, tasks w !! i = Some (it, ps)) as [ps Hps].
  { pose proof (reachable_items urlparse w0 w Hr) as Hm. rewrite Hits in Hm.
    rewrite <- Hm, list_lookup_fmap in Hi.
    destruct (tasks w !! i) as [[it' ps]|]; simplify_eq/=. eauto. }
  split; [done|]. split; [done|]. split; [|split].
  - destruct (Ht _ _ _ Hps eq_refl) as [[-> He]|[[-> He]|(-> & He & Hn)]];
      rewrite He; repeat constructor.
  - destruct (Ht _ _ _ Hps eq_refl) as [[-> He]|[[-> He]|(-> & He & Hn)]]; auto.
  - intros inp w' Hp Hstep.
    destruct (sem_coroutine_task urlparse _ _ _ _ _ _ Hp Hstep)
      as (ps' & evs & Hs & Hi' & _ & Hl & Hc).
    apply process_image_started in Hs.
    destruct (no_credits (shared w)).
    + destruct Hs as (-> & -> & Hdisk). split; [done|]. split; done.
    + rewrite Hex' in Hs. destruct Hs as (-> & -> & Hdisk).
      split; [done|]. split; done.
Qed.

End Resumption.

(** C3 as the specification states it fails: with one slot and the first
    submission answered 429, the second item, whose destination was there
    before the run, is counted as failed, and nothing is counted as skipped. *)
Lemma C3_counterexample :
  exists_ (disk (shared existing_start)) (Path "output/out2.json") = true
  /\ tasks existing_end !! 1 =
       Some (mkItem (Str "img2.jpg") (Path "output/out2.json"), Returned Failed)
  /\ counts (shared existing_end) = mkCounts 0 2 0.
Proof. vm_compute. repeat split; reflexivity. Qed.

Lemma C3_existing_destination_is_kept_witness :
  files (disk (shared rerun_end)) !! Path "output/out1.json"
    = Some (Bytes "earlier result")
  /\ tasks rerun_end !! 0 =
       Some (mkItem (Str "img1.jpg") (Path "output/out1.json"), Returned Skipped)
  /\ counter Skipped (counts (shared rerun_end)) = 1
  /\ counter Failed (counts (shared rerun_end)) = 0.
Proof.
  split.
  - etransitivity.
    + refine (proj1 (C3_existing_destination_is_kept urlparse_unused 50
                (map fst (tasks rerun_start)) (shared rerun_start)
                rerun_start rerun_end 0
                (mkItem (Str "img1.jpg") (Path "output/out1.json"))
                _ (exec_reachable _ _ _) _ _) _); vm_compute; reflexivity.
    + vm_compute. reflexivity.
  - destruct (proj2 (proj2 (proj2 (proj2
               (C3_existing_destination_is_kept urlparse_unused 50
                  (map fst (tasks rerun_start)) (shared rerun_start)
                  rerun_start rerun_start 0
                  (mkItem (Str "img1.jpg") (Path "output/out1.json"))
                  ltac:(vm_compute; reflexivity) (reach_start _ _)
                  ltac:(vm_compute; reflexivity) ltac:(vm_compute; reflexivity)))))
               Wake rerun_end
               ltac:(vm_compute; reflexivity) ltac:(vm_compute; reflexivity))
      as (_ & Hskip & _).
    destruct (Hskip ltac:(vm_compute; reflexivity)) as (Ht & [Hone Hkept] & _).
    split; [exact Ht|]. split.
    + etransitivity; [exact Hone|]. vm_compute. reflexivity.
    + etransitivity; [exact (Hkept Failed ltac:(discriminate))|].
      vm_compute. reflexivity.
Defined.

(** ** The poll loop (C5, C7) *)

Section Polling.

Variable urlparse : string -> option (string * string).

Local Abbreviation pstep := (process_image urlparse).
Local Abbreviation runs := (run urlparse).

Lemma run_cons it g ps inp g1 ps1 evs tr ps' :
  pstep it g ps inp = Some (g1, ps1, evs) ->
  runs it ps1 tr ps' -> runs it ps (evs ++ tr) ps'.
Proof.
  intros Hs. induction 1 as [|ps1 tr ps2 g2 inp2 g3 ps3 evs2 _ IH Hs2].
  - rewrite app_nil_r. rewrite <- (app_nil_l evs). eapply run_step; [constructor|done].
  - rewrite app_assoc. eapply run_step; [by apply IH|done].
Qed.

Lemma run_cons_inv it ps tr ps' :
  runs it ps tr ps' ->
  tr = [] /\ ps' = ps
  \/ exists g inp g1 ps1 evs tr',
       pstep it g ps inp = Some (g1, ps1, evs) /\
       runs it ps1 tr' ps' /\ tr = (evs ++ tr')%list.
Proof.
  induction 1 as [|ps tr ps1 g inp g' ps2 evs Hr IH Hs]; [by left|]. right.
  destruct IH as [[-> ->]|(g0 & inp0 & g1 & ps3 & evs0 & tr' & Hs0 & Hr0 & ->)].
  - exists g, inp, g', ps2, evs, []. rewrite app_nil_r. repeat split; [done|constructor].
  - exists g0, inp0, g1, ps3, evs0, (tr' ++ evs)%list.
    rewrite app_assoc. repeat split; [done|]. by eapply run_step.
Qed.

Lemma run_ended it ps tr ps' :
  runs it ps tr ps' -> ended ps = true -> tr = [] /\ ps' = ps.
Proof.
  intros [?|(g & inp & g1 & ps1 & evs & tr' & Hs & _)]%run_cons_inv Hend; [done|].
  apply process_image_not_ended in Hs. congruence.
Qed.

Lemma play_run it g ps inputs :
  runs it ps (play urlparse it g ps inputs).2 (play urlparse it g ps inputs).1.2.
Proof.
  revert g ps. induction inputs as [|inp rest IH]; intros g ps; simpl; [constructor|].
  destruct (pstep it g ps inp) as [[[g' ps'] evs]|] eqn:Hs; [|constructor].
  specialize (IH g' ps'). destruct (play urlparse it g' ps' rest) as [[g'' ps''] tr].
  simpl in *. by eapply run_cons.
Qed.

(** The sleep inside the loop is only entered on a status in progress. *)
Lemma process_image_loop_sleep it g ps inp g' pid r evs :
  pstep it g ps inp = Some (g', LoopSleep pid r, evs) ->
  exists p s, r = Some p /\ status p = Some s /\ in_progress s = true.
Proof.
  intros H. unfold process_image in H.
  destruct ps, inp; try discriminate;
    unfold start, submitted, submit_image_for_processing, check_processing_status, while_test, finish in H;
    repeat case_match; simplify_eq/=; eauto.
Qed.

(** A status request is issued by two resumptions only: the one that
    receives the process identifier, and the wake-up from the sleep inside
    the loop. *)
Lemma process_image_get it g ps inp g' ps' evs pid :
  pstep it g ps inp = Some (g', ps', evs) -> Get pid ∈ evs ->
  ps = AwaitSubmit /\ ps' = AwaitFirstStatus pid
  \/ exists r, ps = LoopSleep pid r /\ ps' = AwaitNextStatus pid.
Proof.
  intros H Hin. unfold process_image in H.
  destruct ps, inp; try discriminate;
    unfold start, submitted, submit_image_for_processing, check_processing_status, while_test, finish in H;
    repeat case_match; simplify_eq/=;
    repeat (apply elem_of_cons in Hin as [?|Hin]; simplify_eq);
    try (by apply elem_of_nil in Hin); eauto.
Qed.

(** What follows a status held by the pipeline that is not in progress:
    no request, and an end that is either the write with the count, or an
    error of the write. *)
Lemma run_after_terminal it pid p s ps1 tr ps2 :
  status p = Some s -> in_progress s = false ->
  ps1 = InitialSleep pid (Some p) \/ ps1 = Returned Processed \/ (exists e, ps1 = Raised e) ->
  runs it ps1 tr ps2 ->
  Forall (fun e => is_get e = false) tr /\
  (ps1 = InitialSleep pid (Some p) -> forall k, ps2 = Returned k ->
     k = Processed /\ tr = [WriteOutput (output_path it) p; Count Processed]).
Proof.
  intros Hst Hterm Hps1 Hr.
  destruct Hps1 as [->|Hend].
  - apply run_cons_inv in Hr as [[-> ->]|(g & inp & g1 & ps3 & evs & tr' & Hs & Hr & ->)];
      [by split|].
    destruct inp; try discriminate. simpl in Hs. unfold while_test in Hs.
    rewrite Hst, Hterm in Hs. unfold finish in Hs.
    destruct (write_output p (output_path it) (disk g)); simplify_eq/=;
      apply run_ended in Hr as [-> ->]; try done;
      (split; [repeat constructor|]); intros _ k ?; by simplify_eq.
  - apply run_ended in Hr as [-> ->].
    + split; [constructor|]. intros ->. by destruct Hend as [|[? ?]].
    + by destruct Hend as [->|[? ->]].
Qed.

(** C5. After a successful submission, a status request beyond the first
    is issued only from the sleep inside the loop, which is entered only on
    a status in {CREATED, WAITING, RUNNING}.  The first answer whose status
    is outside that set ends the polling: no request follows it, and when
    the pipeline returns it has written exactly that payload to its
    destination and counted the item as processed. *)
Theorem C5_polls_until_first_terminal_status (it : item) (tr : list event)
    (ps : pstate) :
  run urlparse it Pending tr ps ->
  (forall g inp g' ps' evs pid,
     process_image urlparse it g ps inp = Some (g', ps', evs) -> Get pid ∈ evs ->
     ps = AwaitSubmit
     \/ exists p s, ps = LoopSleep pid (Some p) /\ status p = Some s /\
          in_progress s = true)
  /\ (forall g pid p s g1 ps1 evs1 tr2 ps2,
        ps = AwaitFirstStatus pid \/ ps = AwaitNextStatus pid ->
        status p = Some s -> in_progress s = false ->
        process_image urlparse it g ps (Status (Json (Some p))) = Some (g1, ps1, evs1) ->
        run urlparse it ps1 tr2 ps2 ->
        Forall (fun e => is_get e = false) (evs1 ++ tr2) /\
        forall k, ps2 = Returned k ->
          k = Processed /\
          (evs1 ++ tr2 = [WriteOutput (output_path it) p; Count Processed]
           \/ evs1 ++ tr2
                = [Sleep 5; WriteOutput (output_path it) p; Count Processed]))
  /\ (forall g inp g' ps' evs q p,
        process_image urlparse it g ps inp = Some (g', ps', evs) ->
        WriteOutput q p ∈ evs ->
        q = output_path it /\ files (disk g') !! q = Some (JsonDump p) /\
        ps' = Returned Processed /\ counts g' = incr Processed (counts g)).
Proof.
  intros Hrun. split; [|split].
  - intros g inp g' ps' evs pid Hs Hin.
    destruct (process_image_get _ _ _ _ _ _ _ _ Hs Hin) as [[-> _]|(r & -> & _)];
      [by left|right].
    inversion Hrun as [|? ? ? ? ? ? ? ? _ Hlast]; subst.
    apply process_image_loop_sleep in Hlast as (p & s & -> & ? & ?). eauto.
  - intros g pid p s g1 ps1 evs1 tr2 ps2 Hps Hst Hterm Hs Hr.
    destruct Hps as [-> | ->]; simpl in Hs.
    + simplify_eq.
      destruct (run_after_terminal it pid p s _ _ _ Hst Hterm (or_introl eq_refl) Hr)
        as [Hno Hend].
      split; [by constructor|]. intros k Hk.
      destruct (Hend eq_refl k Hk) as [-> ->]. split; [done|]. by right.
    + unfold while_test in Hs. rewrite Hst, Hterm in Hs. unfold finish in Hs.
      destruct (write_output p (output_path it) (disk g)); simplify_eq/=;
        apply run_ended in Hr as [-> ->]; try done;
        (split; [repeat constructor|]); intros k Hk; simplify_eq;
        split; [done|]; by left.
  - intros g inp g' ps' evs q p Hs Hin.
    pose proof (process_image_counts _ _ _ _ _ _ _ _ Hs) as Hc.
    destruct (process_image_disk _ _ _ _ _ _ _ _ Hs)
      as [_ [(_ & Hno & _)|(p' & _ & -> & Hf & ->)]]; [by apply Hno in Hin|].
    apply elem_of_cons in Hin as [Heq|Hin].
    + simplify_eq. rewrite Hf, lookup_insert_eq. done.
    + apply elem_of_cons in Hin as [?|Hin]; [done|]. by apply elem_of_nil in Hin.
Qed.

End Polling.

Lemma C5_polls_until_first_terminal_status_witness :
  files (disk polled.1.1) !! output_path first_item = Some (JsonDump finished)
  /\ polled.1.2 = Returned Processed
  /\ counts polled.1.1 = mkCounts 1 0 0.
Proof.
  pose (before := play urlparse_unused first_item clean_globals Pending (take 7 poll_inputs)).
  destruct (proj2 (proj2 (C5_polls_until_first_terminal_status urlparse_unused
              first_item before.2 before.1.2
              (play_run urlparse_unused first_item clean_globals Pending (take 7 poll_inputs))))
            before.1.1 (Status (Json (Some finished)))
            polled.1.1 polled.1.2
            [WriteOutput (output_path first_item) finished; Count Processed]
            (output_path first_item) finished
            ltac:(vm_compute; reflexivity)
            ltac:(apply list_elem_of_here)) as (_ & Hfile & Hps & Hcounts).
  split; [exact Hfile|]. split; [exact Hps|]. rewrite Hcounts. vm_compute. reflexivity.
Defined.

(** ** Timing of the status requests (C7) *)

Lemma clock_app now tr1 tr2 :
  clock now (tr1 ++ tr2) = clock (clock now tr1) tr2.
Proof. revert now. induction tr1 as [|[] tr1 IH]; intros now; simpl; auto. Qed.

Lemma request_times_app now tr1 tr2 :
  request_times now (tr1 ++ tr2)
    = request_times now tr1 ++ request_times (clock now tr1) tr2.
Proof.
  revert now. induction tr1 as [|[] tr1 IH]; intros now; simpl; auto.
  by rewrite IH.
Qed.

Section Timing.

Variable urlparse : string -> option (string * string).

(** Along a run the status requests fall on the times of [poll_time], and
    the clock at each suspension point is the one of [on_schedule]. *)
Lemma run_on_schedule it tr ps :
  run urlparse it Pending tr ps ->
  exists n, request_times 0 tr = map poll_time (seq 0 n)
            /\ on_schedule ps n (clock 0 tr).
Proof.
  remember Pending as ps0 eqn:Hps0.
  induction 1 as [|ps0 tr ps1 g inp g' ps2 evs _ IH Hs].
  - subst. by exists 0.
  - destruct (IH Hps0) as (n & Htimes & Hclock). clear IH.
    rewrite request_times_app, clock_app, Htimes.
    unfold process_image in Hs.
    destruct ps1, inp; try discriminate;
      unfold start, submitted, submit_image_for_processing, check_processing_status, while_test, finish in Hs;
      repeat case_match; simplify_eq/=;
      destruct Hclock as [Hn Hc]; try rewrite Hc; simpl;
      try (exists n; rewrite ?app_nil_r; split; [done|]; simpl; try done; split; lia).
    + exists 1. subst n. done.
    + exists (S n). rewrite seq_S, map_app. simpl. split; [|lia].
      do 2 f_equal. unfold poll_time. destruct n; lia.
Qed.

(** C7, amended.  The first status request of a submitted item is issued
    at once when the submission is answered; a wait of 5 follows it, and
    every later request is preceded by one more wait of 5: on a clock set to
    0 by the submission and advanced by the sleeps, the requests are issued
    at 0, 10, 15, 20, ... *)
Theorem C7_status_requests_at_0_10_15 (it : item) (tr : list event) (ps : pstate) :
  run urlparse it Pending tr ps ->
  forall (k : nat) (t : Z),
    request_times 0 tr !! k = Some t -> t = poll_time k.
Proof.
  intros (n & Htimes & _)%run_on_schedule k t Hk.
  rewrite Htimes, list_lookup_fmap in Hk.
  destruct (seq 0 n !! k) as [j|] eqn:Hj; [|done].
  apply lookup_seq in Hj as [-> _]. by simplify_eq/=.
Qed.

End Timing.

(** C7 as the specification states it fails on the scenario of one item
    answered RUNNING then FINISHED: no wait separates the submission from
    the first status request, and 10 time units, not 5, separate the first
    request from the second. *)
Lemma C7_counterexample :
  let tr := (play urlparse_unused first_item clean_globals Pending
               [Wake; Submitted (Response 200 (Some "42"));
                Status (Json (Some running)); Wake;
                Wake; Status (Json (Some finished))]).2 in
  tr = [Mkdir (Path "output"); Post (base64 (Bytes "first image"));
        Get "42"; Sleep 5; Sleep 5; Get "42";
        WriteOutput (Path "output/out1.json") finished; Count Processed]
  /\ request_times 0 tr = [0; 10]%Z
  /\ ~ (exists d : Z, (0 < d)%Z /\
          forall (k : nat) (t : Z),
            request_times 0 tr !! k = Some t -> t = (d + 5 * Z.of_nat k)%Z).
Proof.
  split; [vm_compute; reflexivity|]. split; [vm_compute; reflexivity|].
  intros (d & Hd & H). specialize (H 0 0%Z eq_refl). lia.
Qed.

Lemma C7_status_requests_at_0_10_15_witness :
  request_times 0 polled.2 !! 1 = Some 10%Z /\ 10%Z = poll_time 1.
Proof.
  split; [vm_compute; reflexivity|].
  refine (C7_status_requests_at_0_10_15 urlparse_unused first_item polled.2 polled.1.2
            (play_run urlparse_unused first_item clean_globals Pending poll_inputs)
            1 10%Z _).
  vm_compute. reflexivity.
Defined.

(** ** The folder of the destination (C10) *)

Section Folders.

Variable urlparse : string -> option (string * string).

Lemma process_image_post it g ps inp g' ps' evs :
  process_image urlparse it g ps inp = Some (g', ps', evs) ->
  Exists (fun e => is_post e = true) evs ->
  ps = Pending /\ ps' = AwaitSubmit /\
  is_dir (disk g') (parent (output_path it)) = true /\
  exists body, evs = [Mkdir (parent (output_path it)); Post body].
Proof.
  intros H Hex. unfold process_image in H.
  destruct ps, inp; try discriminate;
    unfold start, submitted, submit_image_for_processing, check_processing_status, while_test, finish in H;
    repeat case_match; simplify_eq/=;
    try match goal with
        | Hm : mkdir _ _ = Ok _ |- _ => apply mkdir_spec in Hm as (? & ? & ?)
        end;
    repeat (apply Exists_cons in Hex as [?|Hex]; [done|]);
    try (by apply Exists_nil in Hex).
  all: apply Exists_cons in Hex as [_|Hex]; eauto.
Qed.

Lemma reachable_posted w0 w i it ps :
  fresh w0 -> reachable urlparse w0 w ->
  tasks w !! i = Some (it, ps) ->
  Exists (fun e => is_post e = true) (events_of i (log w)) ->
  is_dir (disk (shared w)) (parent (output_path it)) = true.
Proof.
  intros [Hfresh Hlog] Hr. revert it ps.
  induction Hr as [|w1 w2 Hr IH (j & inp & Hs)]; intros it ps Hi Hex.
  - rewrite Hlog in Hex. by apply Exists_nil in Hex.
  - apply sem_coroutine_Some in Hs as (itj & psj & psj' & evs & Hj & Hs & Ht & Hl & _).
    destruct (process_image_disk _ _ _ _ _ _ _ _ Hs) as [Hdirs _].
    rewrite Hl, events_of_app in Hex. rewrite Ht in Hi.
    apply Exists_app in Hex.
    destruct (decide (i = j)) as [->|Hij].
    + rewrite list_lookup_insert_eq in Hi by (by eapply lookup_lt_Some).
      simplify_eq. rewrite events_of_own in Hex. destruct Hex as [Hex|Hex].
      * eapply is_dir_mono; [done|]. by eapply IH.
      * by apply (process_image_post _ _ _ _ _ _ _ Hs).
    + rewrite list_lookup_insert_ne in Hi by done.
      rewrite events_of_other in Hex by done.
      destruct Hex as [Hex|Hex]; [|by apply Exists_nil in Hex].
      eapply is_dir_mono; [done|]. by eapply IH.
Qed.

(** C10. A pipeline that gets past the flag and the existence test makes
    the folder of its destination before it submits (or stops there on the
    error of [mkdir], without submitting).  For an item that was submitted
    the folder is there from then on, whatever the end of the item, failed
    included.  A resumption of a pipeline writes in one case only: when the
    pipeline returns as processed it writes the payload to its own
    destination and counts; in every other case no file changes and no
    write is logged. *)
Theorem C10_folder_stays_file_only_when_processed (n : Z) (its : list item)
    (g : globals) (w0 w : world) (i : nat) (it : item) (ps : pstate) :
  gather_with_concurrency n its g = Ok w0 ->
  reachable urlparse w0 w ->
  tasks w !! i = Some (it, ps) ->
  (Exists (fun e => is_post e = true) (events_of i (log w)) ->
     is_dir (disk (shared w)) (parent (output_path it)) = true)
  /\ (forall inp w',
        sem_coroutine urlparse w i inp = Some w' ->
        (ps = Pending -> no_credits (shared w) = false ->
         exists_ (disk (shared w)) (output_path it) = false ->
           (exists e, mkdir (disk (shared w)) (parent (output_path it)) = Raise e /\
                      tasks w' !! i = Some (it, Raised e) /\
                      events_of i (log w') = [])
           \/ is_dir (disk (shared w')) (parent (output_path it)) = true /\
              exists rest, events_of i (log w')
                           = Mkdir (parent (output_path it)) :: rest)
        /\ (forall q, is_dir (disk (shared w)) q = true ->
                      is_dir (disk (shared w')) q = true)
        /\ (files (disk (shared w')) = files (disk (shared w)) /\
            tasks w' !! i <> Some (it, Returned Processed) /\
            (exists evs, log w' = log w ++ map (pair i) evs /\
                         forall q p, WriteOutput q p ∉ evs)
            \/ exists p, tasks w' !! i = Some (it, Returned Processed) /\
                 files (disk (shared w')) !! output_path it = Some (JsonDump p) /\
                 log w' = log w ++ [(i, WriteOutput (output_path it) p);
                                    (i, Count Processed)])).
Proof.
  intros (Hfresh & _)%gather_fresh Hr Hi. split.
  - by eapply reachable_posted.
  - intros inp w' Hstep.
    pose proof (reachable_run urlparse w0 w i it ps Hfresh Hr Hi) as Hrun.
    apply sem_coroutine_Some in Hstep
      as (it' & ps0 & ps' & evs & Hi' & Hs & Ht & Hl & _).
    rewrite Hi in Hi'. simplify_eq.
    assert (tasks w' !! i = Some (it', ps')) as Hi'.
    { rewrite Ht. apply list_lookup_insert_eq. by eapply lookup_lt_Some. }
    destruct (process_image_disk _ _ _ _ _ _ _ _ Hs) as [Hdirs Hfiles].
    split; [|split].
    + intros -> Hflag Hex.
      apply run_pending_nil in Hrun.
      rewrite Hl, events_of_app, events_of_own, Hrun. simpl.
      destruct inp; try discriminate. simpl in Hs. unfold start in Hs.
      rewrite Hflag, Hex in Hs.
      destruct (mkdir (disk (shared w)) (parent (output_path it'))) as [fs|e] eqn:Hm.
      * right. apply mkdir_spec in Hm as (_ & _ & Hd).
        destruct (request_body urlparse (image it') fs);
          injection Hs as Hg <- <-; rewrite <- Hg; (split; [done|eauto]).
      * left. exists e. injection Hs as _ <- <-. done.
    + intros q. by apply is_dir_mono.
    + destruct Hfiles as [(Hf & Hw & Hne)|(p & _ & -> & Hf & ->)]; [left|right].
      * split; [done|]. split; [|by eauto].
        rewrite Hi'. intros Heq. by simplify_eq.
      * exists p. split; [done|]. split; [|by rewrite Hl].
        rewrite Hf. apply lookup_insert_eq.
Qed.

End Folders.

Lemma C10_folder_stays_file_only_when_processed_witness :
  tasks nested_end !! 0 =
    Some (mkItem (Str "img1.jpg") (Path "output/sub/out1.json"), Returned Failed)
  /\ is_dir (disk (shared nested_end)) (Path "output/sub") = true
  /\ files (disk (shared nested_end)) !! Path "output/sub/out1.json" = None.
Proof.
  split; [vm_compute; reflexivity|]. split; [|vm_compute; reflexivity].
  refine (proj1 (C10_folder_stays_file_only_when_processed urlparse_unused 50
            (map fst (tasks nested_start)) (shared nested_start)
            nested_start nested_end 0
            (mkItem (Str "img1.jpg") (Path "output/sub/out1.json")) (Returned Failed)
            _ (exec_reachable _ _ _) _) _).
  - vm_compute. reflexivity.
  - vm_compute. reflexivity.
  - vm_compute. apply Exists_cons_tl, Exists_cons_hd. reflexivity.
Defined.

(** ** Failures of one item (C8) *)

Lemma gather_result_raised w i it e :
  tasks w !! i = Some (it, Raised e) ->
  exists e', gather_result w = Some (Raise e').
Proof.
  intros Hi. unfold gather_result.
  assert (e ∈ omap raised_exn (tasks w)) as Hin.
  { apply list_elem_of_omap. exists (it, Raised e). split; [|done].
    by eapply list_elem_of_lookup_2. }
  destruct (omap raised_exn (tasks w)) as [|e' l]; [|by eauto].
  by apply elem_of_nil in Hin.
Qed.

Section Failures.

Variable urlparse : string -> option (string * string).

(** A task that waits can be resumed by whatever its pipeline accepts, and
    the world that results is the one [sem_coroutine_task] describes. *)
Lemma sem_coroutine_resumed w i it ps inp g' ps' evs :
  tasks w !! i = Some (it, ps) -> suspended ps = true ->
  process_image urlparse it (shared w) ps inp = Some (g', ps', evs) ->
  exists w',
    sem_coroutine urlparse w i inp = Some w' /\
    tasks w' !! i = Some (it, ps') /\
    tasks w' = <[i := (it, ps')]> (tasks w) /\
    log w' = log w ++ map (pair i) evs /\
    match ps' with
    | Returned k => one_more k (counts (shared w)) (counts (shared w'))
    | _ => counts (shared w') = counts (shared w)
    end.
Proof.
  intros Hi Hsusp Hp.
  assert (exists w', sem_coroutine urlparse w i inp = Some w') as [w' Hw'].
  { unfold sem_coroutine. rewrite Hi. destruct ps; try done; rewrite Hp; eauto. }
  exists w'. split; [done|].
  destruct (sem_coroutine_task urlparse _ _ _ _ _ _ Hi Hw')
    as (ps'' & evs'' & Hs & Ht & Hts & Hl & Hc).
  rewrite Hp in Hs. by simplify_eq.
Qed.

(** A task that returns as failed is no exception for [gather]. *)
Lemma failed_not_raised w w' i it ps :
  tasks w !! i = Some (it, ps) -> suspended ps = true ->
  tasks w' = <[i := (it, Returned Failed)]> (tasks w) ->
  omap raised_exn (tasks w') = omap raised_exn (tasks w).
Proof.
  intros Hi Hsusp ->. eapply omap_insert_None; [done| |done].
  by destruct ps.
Qed.

(** C8, amended.  The failures that the pipeline handles end it as failed:
    a submission answered with a status other than 200, or with 200 and a
    null process identifier, an [aiohttp.ClientConnectorError] of the
    submission, and a [ClientConnectorError] or a null answer of a status
    request.  Each adds one to the counter of failed items and leaves the
    two others; no exception reaches [gather], the batch goes on.  Nothing
    else is caught: any other exception of the submission or of a status
    request, a status payload without status, and the assertion that fails
    on a malformed URL or on a missing image file end the pipeline by that
    exception.  Then no counter moves, the pipeline has counted nothing,
    and [gather] passes an exception to [main], which gives the batch up.
    A pipeline that has returned has counted its item once, and each
    counter is its value before the batch plus the number of pipelines
    returned with that disposition. *)
Theorem C8_failures_counted_assertions_escape (n : Z) (its : list item)
    (g : globals) (w0 w : world) (i : nat) (it : item) (ps : pstate) :
  gather_with_concurrency n its g = Ok w0 ->
  reachable urlparse w0 w ->
  tasks w !! i = Some (it, ps) ->
  (forall k, ps = Returned k -> counted (events_of i (log w)) = [k])
  /\ (forall e, ps = Raised e ->
        counted (events_of i (log w)) = [] /\
        exists e', gather_result w = Some (Raise e'))
  /\ (forall k, counter k (counts (shared w))
                = counter k (counts g) + tally k (tasks w))
  /\ (forall r,
        ps = AwaitSubmit ->
        r = SubmitConnectorError \/ r = Response 200 None
        \/ (exists c pid, r = Response c pid /\ c <> 200%Z) ->
        exists w',
          sem_coroutine urlparse w i (Submitted r) = Some w'
          /\ tasks w' !! i = Some (it, Returned Failed)
          /\ one_more Failed (counts (shared w)) (counts (shared w'))
          /\ omap raised_exn (tasks w') = omap raised_exn (tasks w))
  /\ (forall pid r,
        r = StatusConnectorError \/ r = Json None ->
        (ps = AwaitFirstStatus pid ->
           exists w',
             sem_coroutine urlparse w i (Status r) = Some w'
             /\ tasks w' !! i = Some (it, InitialSleep pid None)
             /\ counts (shared w') = counts (shared w))
        /\ (ps = AwaitNextStatus pid ->
           exists w',
             sem_coroutine urlparse w i (Status r) = Some w'
             /\ tasks w' !! i = Some (it, Returned Failed)
             /\ one_more Failed (counts (shared w)) (counts (shared w'))
             /\ omap raised_exn (tasks w') = omap raised_exn (tasks w)))
  /\ (forall pid,
        ps = InitialSleep pid None ->
        exists w',
          sem_coroutine urlparse w i Wake = Some w'
          /\ tasks w' !! i = Some (it, Returned Failed)
          /\ one_more Failed (counts (shared w)) (counts (shared w'))
          /\ omap raised_exn (tasks w') = omap raised_exn (tasks w))
  /\ (ps = AwaitSubmit ->
        exists w',
          sem_coroutine urlparse w i (Submitted SubmitException) = Some w'
          /\ tasks w' !! i = Some (it, Raised OtherError))
  /\ (forall pid,
        ps = AwaitFirstStatus pid \/ ps = AwaitNextStatus pid ->
        exists w',
          sem_coroutine urlparse w i (Status StatusException) = Some w'
          /\ tasks w' !! i = Some (it, Raised OtherError))
  /\ (forall pid p,
        ps = InitialSleep pid (Some p) \/ ps = AwaitNextStatus pid ->
        status p = None ->
        exists w',
          sem_coroutine urlparse w i
            (match ps with
             | AwaitNextStatus _ => Status (Json (Some p))
             | _ => Wake
             end) = Some w'
          /\ tasks w' !! i = Some (it, Raised KeyError))
  /\ (forall fs e w',
        ps = Pending ->
        no_credits (shared w) = false ->
        exists_ (disk (shared w)) (output_path it) = false ->
        mkdir (disk (shared w)) (parent (output_path it)) = Ok fs ->
        request_body urlparse (image it) fs = Raise e ->
        sem_coroutine urlparse w i Wake = Some w' ->
        tasks w' !! i = Some (it, Raised e))
  /\ (forall inp w' e,
        sem_coroutine urlparse w i inp = Some w' ->
        tasks w' !! i = Some (it, Raised e) ->
        counts (shared w') = counts (shared w)
        /\ counted (events_of i (log w')) = []
        /\ exists e', gather_result w' = Some (Raise e'))
  /\ (forall s fs,
        (String.prefix "http" s = true -> validate_url urlparse s = false ->
           request_body urlparse (Str s) fs = Raise AssertionError)
        /\ (String.prefix "http" s = false -> exists_ fs (Path s) = false ->
             request_body urlparse (Str s) fs = Raise AssertionError)).
Proof.
  intros (Hfresh & Hsh & _)%gather_fresh Hr Hi.
  pose proof (reachable_run urlparse w0 w i it ps Hfresh Hr Hi) as Hrun.
  apply run_counted in Hrun.
  split_and!.
  - intros k ->. done.
  - intros e ->. split; [done|]. by eapply gather_result_raised.
  - intros k. rewrite <- Hsh. by apply (reachable_counts urlparse).
  - intros r -> Hr'.
    assert (exists g',
              process_image urlparse it (shared w) AwaitSubmit (Submitted r)
              = Some (g', Returned Failed, [Count Failed])) as [g' Hp].
    { simpl. unfold submitted.
      destruct Hr' as [->|[->|(c & pid & -> & Hc)]]; simpl; [by eauto..|].
      destruct (Z.eqb_spec c 200); [done|].
      destruct (c =? 429)%Z; eauto. }
    destruct (sem_coroutine_resumed _ _ _ _ _ _ _ _ Hi eq_refl Hp)
      as (w' & Hw' & Ht & Hts & _ & Hc).
    exists w'. split_and!; [done..|]. by eapply failed_not_raised.
  - intros pid r Hr'. split; intros ->.
    + assert (process_image urlparse it (shared w) (AwaitFirstStatus pid) (Status r)
              = Some (shared w, InitialSleep pid None, [Sleep 5])) as Hp.
      { by destruct Hr' as [-> | ->]. }
      destruct (sem_coroutine_resumed _ _ _ _ _ _ _ _ Hi eq_refl Hp)
        as (w' & Hw' & Ht & _ & _ & Hc).
      by exists w'.
    + assert (exists g',
                process_image urlparse it (shared w) (AwaitNextStatus pid) (Status r)
                = Some (g', Returned Failed, [Count Failed])) as [g' Hp].
      { destruct Hr' as [-> | ->]; simpl; eauto. }
      destruct (sem_coroutine_resumed _ _ _ _ _ _ _ _ Hi eq_refl Hp)
        as (w' & Hw' & Ht & Hts & _ & Hc).
      exists w'. split_and!; [done..|]. by eapply failed_not_raised.
  - intros pid ->.
    assert (exists g',
              process_image urlparse it (shared w) (InitialSleep pid None) Wake
              = Some (g', Returned Failed, [Count Failed])) as [g' Hp].
    { simpl. eauto. }
    destruct (sem_coroutine_resumed _ _ _ _ _ _ _ _ Hi eq_refl Hp)
      as (w' & Hw' & Ht & Hts & _ & Hc).
    exists w'. split_and!; [done..|]. by eapply failed_not_raised.
  - intros ->.
    destruct (sem_coroutine_resumed w i it AwaitSubmit (Submitted SubmitException)
                (shared w) (Raised OtherError) [] Hi eq_refl eq_refl)
      as (w' & Hw' & Ht & _).
    by exists w'.
  - intros pid [-> | ->].
    + destruct (sem_coroutine_resumed w i it _ (Status StatusException)
                  (shared w) (Raised OtherError) [] Hi eq_refl eq_refl)
        as (w' & Hw' & Ht & _).
      by exists w'.
    + destruct (sem_coroutine_resumed w i it _ (Status StatusException)
                  (shared w) (Raised OtherError) [] Hi eq_refl eq_refl)
        as (w' & Hw' & Ht & _).
      by exists w'.
  - intros pid p [-> | ->] Hst.
    + assert (process_image urlparse it (shared w) (InitialSleep pid (Some p)) Wake
              = Some (shared w, Raised KeyError, [])) as Hp.
      { simpl. by rewrite Hst. }
      destruct (sem_coroutine_resumed _ _ _ _ _ _ _ _ Hi eq_refl Hp)
        as (w' & Hw' & Ht & _).
      by exists w'.
    + assert (process_image urlparse it (shared w) (AwaitNextStatus pid)
                (Status (Json (Some p)))
              = Some (shared w, Raised KeyError, [])) as Hp.
      { simpl. by rewrite Hst. }
      destruct (sem_coroutine_resumed _ _ _ _ _ _ _ _ Hi eq_refl Hp)
        as (w' & Hw' & Ht & _).
      by exists w'.
  - intros fs e w' -> Hflag Hex Hm Hbad Hstep.
    destruct (sem_coroutine_task urlparse _ _ _ _ _ _ Hi Hstep)
      as (ps' & evs & Hs & Ht & _).
    simpl in Hs. unfold start in Hs. rewrite Hflag, Hex, Hm, Hbad in Hs.
    by simplify_eq.
  - intros inp w' e Hstep Hraised.
    destruct (sem_coroutine_task urlparse _ _ _ _ _ _ Hi Hstep)
      as (ps' & evs & Hs & Ht & _ & _ & Hc).
    rewrite Ht in Hraised. simplify_eq. split; [done|].
    split; [|by eapply gather_result_raised].
    assert (reachable urlparse w0 w') as Hr'.
    { eapply reach_step; [done|]. by exists i, inp. }
    pose proof (reachable_run urlparse w0 w' i it _ Hfresh Hr' Ht) as Hrun'.
    by apply run_counted in Hrun'.
  - intros s fs. split; intros Hp Hv; unfold request_body; by rewrite Hp, ?Hv.
Qed.

End Failures.

(** C8 as the specification states it fails: the first of two items names
    an image that is not on disk; its pipeline raises [AssertionError], no
    counter moves, and [gather] hands the exception to [main]. *)
Lemma C8_counterexample :
  tasks missing_end !! 0 =
    Some (mkItem (Str "missing.jpg") (Path "output/out1.json"),
          Raised AssertionError)
  /\ counts (shared missing_end) = mkCounts 0 0 0
  /\ gather_result missing_end = Some (Raise AssertionError).
Proof. vm_compute. repeat split; reflexivity. Qed.

Lemma C8_failures_counted_assertions_escape_witness :
  (exists w',
     sem_coroutine urlparse_unused (exec urlparse_unused quota_start [(0, Wake)]) 0
       (Submitted (Response 429 None)) = Some w'
     /\ tasks w' !! 0 = Some (first_item, Returned Failed)
     /\ counter Failed (counts (shared w')) = 1
     /\ omap raised_exn (tasks w') = [])
  /\ counts (shared missing_end) = mkCounts 0 0 0
  /\ counted (events_of 0 (log missing_end)) = []
  /\ exists e, gather_result missing_end = Some (Raise e).
Proof.
  split.
  - pose (w := exec urlparse_unused quota_start [(0, Wake)]).
    pose proof (C8_failures_counted_assertions_escape urlparse_unused 1
                  (map fst (tasks quota_start)) (shared quota_start)
                  quota_start w 0 first_item AwaitSubmit
                  ltac:(vm_compute; reflexivity) (exec_reachable _ _ _)
                  ltac:(vm_compute; reflexivity))
      as (_ & _ & _ & Hsubmit & _).
    destruct (Hsubmit (Response 429 None) eq_refl)
      as (w' & Hw' & Ht & [Hone _] & Hraised).
    { right. right. exists 429%Z, None. split; [reflexivity|discriminate]. }
    exists w'. split; [exact Hw'|]. split; [exact Ht|]. split.
    + etransitivity; [exact Hone|]. vm_compute. reflexivity.
    + etransitivity; [exact Hraised|]. vm_compute. reflexivity.
  - pose proof (C8_failures_counted_assertions_escape urlparse_unused 2
                  (map fst (tasks missing_start)) (shared missing_start)
                  missing_start missing_start 0
                  (mkItem (Str "missing.jpg") (Path "output/out1.json")) Pending
                  ltac:(vm_compute; reflexivity) (reach_start _ _)
                  ltac:(vm_compute; reflexivity))
      as (_ & _ & _ & _ & _ & _ & _ & _ & _ & _ & Hescape & _).
    destruct (Hescape Wake missing_end AssertionError
                ltac:(vm_compute; reflexivity) ltac:(vm_compute; reflexivity))
      as (Hc & Hn & He).
    split; [|split; [exact Hn|exact He]].
    etransitivity; [exact Hc|]. vm_compute. reflexivity.
Defined.

(** ** Renewal of the token (C6) *)

(** Every renewal is invoked one initial period after the previous one:
    the lifetimes of the renewed tokens play no part. *)
Lemma refresh_loop_times period now answers k t tok :
  refresh_loop period now answers !! k = Some (t, tok) ->
  t = (now + Z.of_nat (S k) * Z.max 0 period)%Z.
Proof.
  revert now k. induction answers as [|a answers IH]; intros now k H; [done|].
  simpl in H. destruct k as [|k].
  - simpl in H. unfold sleep_until in H. simplify_eq. lia.
  - simpl in H. destruct (access_token a); [|done].
    apply IH in H. unfold sleep_until in H. lia.
Qed.

(** The token of [get_api_token] is renewed before it expires. *)
Lemma first_renewal_in_time initial answers t tok :
  (0 < expires_in initial)%Z ->
  token_refresh_task initial answers !! 0 = Some (t, tok) ->
  (t < expiry (0%Z, initial))%Z.
Proof.
  intros Hpos H. apply refresh_loop_times in H. subst t.
  unfold expiry, refresh_period. simpl.
  pose proof (Z.quot_lt (9 * expires_in initial) 10).
  assert (0 <= (9 * expires_in initial) ÷ 10)%Z by (apply Z.quot_pos; lia).
  assert ((9 * expires_in initial) ÷ 10 * 10 <= 9 * expires_in initial)%Z.
  { rewrite Z.mul_comm. apply Z.mul_quot_le; lia. }
  lia.
Qed.

(** C6 fails on the code: the period is computed once, from the token of
    [get_api_token].  After a first token of 300 seconds the endpoint issues
    tokens of 60 seconds: the token issued at 270 expires at 330, and its
    renewal is invoked at 540. *)
Theorem C6_renewal_after_expiry_of_shorter_token :
  refresh_period long_lived = 270%Z
  /\ issued long_lived [short_lived_1; short_lived_2]
     = [(0, long_lived); (270, short_lived_1); (540, short_lived_2)]%Z
  /\ expiry (270%Z, short_lived_1) = 330%Z
  /\ (expiry (270%Z, short_lived_1) < 540)%Z
  /\ Z.quot (9 * expires_in short_lived_1) 10 = 54%Z.
Proof. vm_compute. repeat split; reflexivity. Qed.

(** ** The scenarios of the specification *)

(** Two items, one slot, the first submission answered 429. *)
Example scenario_quota :
  counts (shared quota_end) = mkCounts 0 2 0
  /\ filter (fun e => is_post e.2 = true) (log quota_end)
     = [(0, Post (base64 (Bytes "first image")))].
Proof. vm_compute. split; reflexivity. Qed.

(** One item whose destination is there before the run. *)
Example scenario_rerun :
  counts (shared rerun_end) = mkCounts 0 0 1
  /\ log rerun_end = [(0, Count Skipped)]
  /\ disk (shared rerun_end) = first_done.
Proof. vm_compute. repeat split; reflexivity. Qed.

(** RUNNING, RUNNING, then FINISHED with payload P. *)
Example scenario_polling :
  polled.2 = [Mkdir (Path "output"); Post (base64 (Bytes "first image"));
              Get "42"; Sleep 5; Sleep 5; Get "42"; Sleep 5; Get "42";
              WriteOutput (Path "output/out1.json") finished; Count Processed]
  /\ request_times 0 polled.2 = [0; 10; 15]%Z.
Proof. vm_compute. split; reflexivity. Qed.

(** * Further properties of the runner and of the pipelines *)

Lemma in_flight_suspended ts :
  0 < in_flight ts ->
  exists i it ps, ts !! i = Some (it, ps) /\ suspended ps = true.
Proof.
  unfold in_flight. induction ts as [|[it ps] ts IH]; simpl; [lia|].
  destruct (suspended ps) eqn:Hs.
  - intros _. by exists 0, it, ps.
  - intros H. destruct IH as (i & it' & ps' & Hi & Hs'); [lia|].
    by exists (S i), it', ps'.
Qed.

Lemma fresh_in_flight w : fresh w -> in_flight (tasks w) = 0.
Proof.
  intros [Hp _]. unfold in_flight.
  induction Hp as [|[it ps] ts Hp _ IH]; simpl in *; [done|]. by subst.
Qed.

Section Progress.

Variable urlparse : string -> option (string * string).

(** A suspended pipeline can always be resumed by the answer or the timer
    it waits for. *)
Lemma suspended_resumable it g ps :
  suspended ps = true ->
  exists inp r, process_image urlparse it g ps inp = Some r.
Proof.
  destruct ps; try done; intros _.
  - exists (Submitted SubmitConnectorError). simpl. eauto.
  - exists (Status StatusConnectorError). simpl. eauto.
  - exists Wake. simpl. eauto.
  - exists Wake. simpl. eauto.
  - exists (Status StatusConnectorError). simpl. eauto.
Qed.

Lemma sem_coroutine_suspended w i it ps :
  tasks w !! i = Some (it, ps) -> suspended ps = true ->
  exists inp w', sem_coroutine urlparse w i inp = Some w'.
Proof.
  intros Hi Hs.
  destruct (suspended_resumable it (shared w) ps Hs) as (inp & [[g ps'] evs] & Hp).
  exists inp. unfold sem_coroutine. rewrite Hi.
  destruct ps; try done; rewrite Hp; eauto.
Qed.

(** X1. With a positive limit the batch never gets stuck: as long as a
    pipeline has not come to its end, some task can be resumed (a waiting
    one by its answer or timer, or a pending one because a slot is free). *)
Theorem X1_batch_never_stuck (n : Z) (its : list item) (g : globals)
    (w0 w : world) :
  (0 < n)%Z ->
  gather_with_concurrency n its g = Ok w0 ->
  reachable urlparse w0 w ->
  (exists i it ps, tasks w !! i = Some (it, ps) /\ ended ps = false) ->
  exists i inp w', sem_coroutine urlparse w i inp = Some w'.
Proof.
  intros Hn (Hfresh & _ & Hsem & _)%gather_fresh Hr (i & it & ps & Hi & Hend).
  destruct (suspended ps) eqn:Hs.
  { destruct (sem_coroutine_suspended w i it ps Hi Hs) as (inp & w' & H). eauto. }
  assert (ps = Pending) as -> by (by destruct ps).
  destruct (semaphore w) as [|v] eqn:Hv.
  - pose proof (reachable_slots urlparse w0 w Hr) as Hslots.
    pose proof (fresh_in_flight w0 Hfresh) as H0.
    destruct (in_flight_suspended (tasks w)) as (j & itj & psj & Hj & Hsj); [lia|].
    destruct (sem_coroutine_suspended w j itj psj Hj Hsj) as (inp & w' & H). eauto.
  - exists i, Wake. unfold sem_coroutine. rewrite Hi, Hv. simpl.
    destruct (start urlparse it (shared w)) as [[g' ps'] evs]. eauto.
Qed.

(** X2. A semaphore of size 0 admits nobody: no task is ever resumed, the
    world stays as [gather_with_concurrency] set it up. *)
Theorem X2_no_slot_no_start (its : list item) (g : globals) (w0 w : world) :
  gather_with_concurrency 0 its g = Ok w0 ->
  reachable urlparse w0 w ->
  w = w0.
Proof.
  intros (Hfresh & _ & Hsem & _)%gather_fresh.
  induction 1 as [|w w' _ IH (i & inp & Hs)]; [done|]. subst w.
  apply sem_coroutine_Some in Hs as (it & ps & ps' & evs & Hi & _ & _ & _ & _ & Hfree).
  destruct Hfresh as [Hp _]. rewrite Forall_lookup in Hp.
  specialize (Hp _ _ Hi). simpl in Hp. specialize (Hfree Hp).
  simpl in Hsem. lia.
Qed.

End Progress.

Lemma tally_le_length ts :
  tally Processed ts + tally Failed ts + tally Skipped ts <= length ts.
Proof.
  unfold tally. induction ts as [|[it ps] ts IH]; simpl; [done|].
  destruct ps as [| | | | | |k|]; simpl; try lia. destruct k; simpl; lia.
Qed.

Section DuringTheRun.

Variable urlparse : string -> option (string * string).

(** X3. While the batch runs, each counter is its initial value plus the
    number of pipelines that have returned with that disposition, so the
    counted items never exceed the items of the batch; one resumption
    leaves the counters alone or adds one to exactly one of them. *)
Theorem X3_counters_while_running (n : Z) (its : list item) (g : globals)
    (w0 w w' : world) :
  gather_with_concurrency n its g = Ok w0 ->
  reachable urlparse w0 w ->
  step urlparse w w' ->
  (forall k, counter k (counts (shared w)) = counter k (counts g) + tally k (tasks w))
  /\ total (counts (shared w)) <= total (counts g) + length its
  /\ (counts (shared w') = counts (shared w)
      \/ exists k, counts (shared w') = incr k (counts (shared w))).
Proof.
  intros (Hfresh & Hsh & _ & Hits)%gather_fresh Hr (i & inp & Hs).
  assert (forall k, counter k (counts (shared w))
                    = counter k (counts g) + tally k (tasks w)) as Hk.
  { intros k. rewrite <- Hsh. by apply (reachable_counts urlparse). }
  split; [done|]. split.
  - unfold total.
    change (counter Processed (counts (shared w)) + counter Failed (counts (shared w))
            + counter Skipped (counts (shared w))
            <= counter Processed (counts g) + counter Failed (counts g)
               + counter Skipped (counts g) + length its).
    rewrite !Hk. pose proof (tally_le_length (tasks w)) as Hle.
    assert (length (tasks w) = length its) as Hlen.
    { rewrite <- Hits, <- (reachable_items urlparse w0 w Hr). by rewrite length_map. }
    lia.
  - apply sem_coroutine_Some in Hs as (it & ps & ps' & evs & _ & Hs & _).
    pose proof (process_image_counts _ _ _ _ _ _ _ _ Hs) as Hc. rewrite Hc.
    destruct ps'; eauto.
Qed.

(** The files of the disk only grow in number. *)
Lemma reachable_files_kept w0 w p :
  reachable urlparse w0 w ->
  is_Some (files (disk (shared w0)) !! p) -> is_Some (files (disk (shared w)) !! p).
Proof.
  induction 1 as [|w1 w2 _ IH (j & inp & Hs)]; [done|]. intros H0.
  specialize (IH H0).
  apply sem_coroutine_Some in Hs as (itj & psj & psj' & evs & _ & Hs & _).
  destruct (process_image_disk _ _ _ _ _ _ _ _ Hs)
    as [_ [(-> & _)|(pl & _ & _ & -> & _)]]; [done|].
  destruct (decide (output_path itj = p)) as [->|Hne].
  - rewrite lookup_insert_eq. eauto.
  - by rewrite lookup_insert_ne.
Qed.

(** X4. The batch changes no file but the destinations of the items it
    has processed.  On a disk where the path in question and the
    destinations of the batch are spelled in one way only, the path holds
    what it held before the run, or it is the destination of a pipeline
    that returned as processed and holds the dump of a status payload. *)
Theorem X4_only_processed_destinations_written (n : Z) (its : list item)
    (g : globals) (w0 w : world) (p : path) :
  gather_with_concurrency n its g = Ok w0 ->
  reachable urlparse w0 w ->
  one_spelling (p :: map output_path its) = true ->
  files (disk (shared w)) !! p = files (disk g) !! p
  \/ exists j it dumped,
       tasks w !! j = Some (it, Returned Processed) /\ output_path it = p /\
       files (disk (shared w)) !! p = Some (JsonDump dumped).
Proof.
  intros (_ & Hsh & _)%gather_fresh Hr _. subst g.
  induction Hr as [|w1 w2 _ IH (j & inp & Hs)]; [by left|].
  apply sem_coroutine_Some in Hs as (itj & psj & psj' & evs & Hj & Hs & Ht & _).
  pose proof (process_image_not_ended _ _ _ _ _ _ Hs) as Hend.
  assert (forall k it,
            tasks w1 !! k = Some (it, Returned Processed) ->
            tasks w2 !! k = Some (it, Returned Processed)) as Hkeep.
  { intros k it Hk. rewrite Ht.
    destruct (decide (k = j)) as [->|Hkj]; [|by rewrite list_lookup_insert_ne].
    rewrite Hk in Hj. by simplify_eq. }
  destruct (process_image_disk _ _ _ _ _ _ _ _ Hs)
    as [_ [(-> & _)|(pl & _ & -> & -> & _)]].
  - destruct IH as [IH|(k & it & dumped & Hk & Hp & Hf)]; [by left|right].
    exists k, it, dumped. eauto.
  - destruct (decide (output_path itj = p)) as [Hp|Hne].
    + right. exists j, itj, pl. rewrite Ht, Hp, lookup_insert_eq.
      split; [|done]. apply list_lookup_insert_eq. by eapply lookup_lt_Some.
    + rewrite lookup_insert_ne by done.
      destruct IH as [IH|(k & it & dumped & Hk & Hp & Hf)]; [by left|right].
      exists k, it, dumped. eauto.
Qed.

(** X5. Running the batch again resumes it: the destination of an item
    that was processed is a file in every later world, and a pipeline that
    starts for this destination on a disk that has the file, with the flag
    of the new run not set, skips the item without any request. *)
Theorem X5_processed_item_skipped_on_rerun (n : Z) (its : list item)
    (g : globals) (w0 w : world) (i : nat) (it : item) :
  gather_with_concurrency n its g = Ok w0 ->
  reachable urlparse w0 w ->
  tasks w !! i = Some (it, Returned Processed) ->
  is_file (disk (shared w)) (output_path it) = true
  /\ forall (again : item) (g2 : globals),
       output_path again = output_path it ->
       is_file (disk g2) (output_path it) = true ->
       no_credits g2 = false ->
       process_image urlparse again g2 Pending Wake
         = Some (count_one Skipped g2, Returned Skipped, [Count Skipped]).
Proof.
  intros (Hfresh & _)%gather_fresh Hr Hi. split.
  - destruct Hfresh as [Hp _]. revert Hi.
    induction Hr as [|w1 w2 Hr IH (j & inp & Hs)]; intros Hi.
    { rewrite Forall_lookup in Hp. by specialize (Hp _ _ Hi). }
    pose proof Hs as Hs0.
    apply sem_coroutine_Some in Hs as (itj & psj & psj' & evs & Hj & Hs & Ht & _).
    rewrite Ht in Hi. unfold is_file. apply bool_decide_eq_true_2.
    destruct (decide (i = j)) as [->|Hij].
    + rewrite list_lookup_insert_eq in Hi by (by eapply lookup_lt_Some).
      simplify_eq.
      destruct (process_image_disk _ _ _ _ _ _ _ _ Hs)
        as [_ [(_ & _ & Hne)|(pl & _ & _ & -> & _)]]; [done|].
      rewrite lookup_insert_eq. eauto.
    + rewrite list_lookup_insert_ne in Hi by done.
      specialize (IH Hi). unfold is_file in IH. apply bool_decide_eq_true_1 in IH.
      eapply (reachable_files_kept w1 w2); [|done].
      eapply reach_step; [constructor|]. by exists j, inp.
  - intros again g2 Hsame Hfile Hflag. simpl. unfold start, exists_.
    by rewrite Hflag, Hsame, Hfile.
Qed.

(** X6. The flag is read when a pipeline starts and nowhere else: a
    pipeline that is past its start goes on in the same way whether the
    flag has been set in the meantime or not. *)
Theorem X6_flag_only_read_at_start (it : item) (g : globals) (ps : pstate)
    (inp : resume) :
  ps <> Pending ->
  process_image urlparse it (set_no_credits g) ps inp
    = match process_image urlparse it g ps inp with
      | Some (g', ps', evs) => Some (set_no_credits g', ps', evs)
      | None => None
      end.
Proof.
  intros Hps. destruct ps, inp; try done; simpl;
    unfold submitted, submit_image_for_processing, check_processing_status,
      while_test, finish, set_no_credits, count_one, set_disk; simpl;
    repeat case_match; simplify_eq/=; done.
Qed.

End DuringTheRun.

(** ** The protocol of one pipeline *)

Lemma rounds_S pid k : rounds pid (S k) = rounds pid k ++ [Sleep 5; Get pid].
Proof.
  unfold rounds. induction k as [|k IH]; [done|].
  simpl in *. by rewrite IH.
Qed.

Lemma polling_S pid k : polling pid (S k) = polling pid k ++ [Sleep 5; Get pid].
Proof. unfold polling. by rewrite rounds_S. Qed.

Section Protocol.

Variable urlparse : string -> option (string * string).

Lemma process_image_trace_at it g ps inp g' ps' evs tr :
  process_image urlparse it g ps inp = Some (g', ps', evs) ->
  trace_at it ps tr -> trace_at it ps' (tr ++ evs).
Proof.
  intros H Htr. unfold process_image in H.
  destruct ps, inp; try discriminate; simpl in Htr;
    unfold start, submitted, submit_image_for_processing, check_processing_status,
      while_test, finish in H;
    repeat match type of Htr with
           | ex _ => let x := fresh "x" in destruct Htr as [x Htr]
           end; subst tr;
    repeat case_match; simplify_eq; simpl trace_at; rewrite ?app_nil_r.
  all: lazymatch goal with
       | |- protocol _ [Count Failed] => apply protocol_no_credits
       | |- protocol _ [Count Skipped] => apply protocol_skipped
       | |- protocol ?it [_; Post ?b; Count Failed] =>
           apply (protocol_not_accepted it b)
       | |- protocol ?it [_; Post ?b; Get ?pid; Sleep 5; Count Failed] =>
           apply (protocol_lost it b pid 0)
       | |- protocol ?it [_; Post ?b; Get ?pid; Sleep 5; WriteOutput _ ?p; _] =>
           apply (protocol_processed it b pid 0 p)
       | |- protocol ?it (_ :: Post ?b :: Get ?pid :: _ :: _ :: _
                          :: concat (replicate ?k _) ++ [Count Failed]) =>
           apply (protocol_lost it b pid (S k))
       | |- protocol ?it (_ :: Post ?b :: Get ?pid :: _ :: _ :: _
                          :: concat (replicate ?k _) ++ [WriteOutput _ ?p; _]) =>
           apply (protocol_processed it b pid (S k) p)
       | |- exists full, protocol ?it full /\ [] `prefix_of` full =>
           exists [Count Failed]; split;
           [apply protocol_no_credits|by exists [Count Failed]]
       | |- exists full, protocol ?it full /\ [Mkdir _] `prefix_of` full =>
           eexists; split;
           [apply (protocol_not_accepted it (imageUrl EmptyString))
           |by exists [Post (imageUrl EmptyString); Count Failed]]
       | |- exists full, protocol ?it full /\ [_; Post ?b] `prefix_of` full =>
           eexists; split;
           [apply (protocol_not_accepted it b)|by exists [Count Failed]]
       | |- exists full, protocol ?it full /\ [_; Post ?b; Get ?pid] `prefix_of` full =>
           eexists; split;
           [apply (protocol_lost it b pid 0)|by exists [Sleep 5; Count Failed]]
       | |- exists full, protocol ?it full
                         /\ [_; Post ?b; Get ?pid; Sleep 5] `prefix_of` full =>
           eexists; split;
           [apply (protocol_lost it b pid 0)|by exists [Count Failed]]
       | |- exists full, protocol ?it full
                         /\ (_ :: Post ?b :: Get ?pid :: _ :: _ :: _
                             :: concat (replicate ?k _)) `prefix_of` full =>
           eexists; split;
           [apply (protocol_lost it b pid (S k))|by exists [Count Failed]]
       | |- exists body, [_; Post ?b] = _ => by exists b
       | |- exists body, [_; Post ?b; _] = _ => by exists b
       | |- exists body, [_; Post ?b; _; _] = _ => by exists b
       | |- exists body k, [_; Post ?b; _; _; _] = _ => by exists b, 0
       | |- exists body k, _ :: Post ?b :: _ :: _ :: (rounds _ ?n ++ _) ++ _ = _ =>
           exists b, n; rewrite polling_S; unfold polling;
           by rewrite <- !app_assoc
       | |- exists body k, _ :: Post ?b :: _ :: _ :: _ :: _
                           :: concat (replicate ?n _) ++ _ = _ =>
           by exists b, (S n)
       end.
Qed.

Lemma run_trace_at it tr ps :
  run urlparse it Pending tr ps -> trace_at it ps tr.
Proof.
  remember Pending as ps0 eqn:Hps0.
  induction 1 as [|ps0 tr ps1 g inp g' ps2 evs _ IH Hs]; [by subst|].
  eapply process_image_trace_at; [done|]. by apply IH.
Qed.

End Protocol.

Section ProtocolTheorems.

Variable urlparse : string -> option (string * string).

(** X7. The trace of a pipeline follows one protocol: what it has done so
    far is the beginning of a complete trace, and a complete trace is one
    count alone (flag set, or destination in place), or the making of the
    folder and one submission followed by the failed count, or by the first
    status request, a sleep, any number of turns made of a sleep and a
    status request for the same process, and then the failed count or the
    write of the destination with the processed count.  The trace of a
    pipeline that has returned is complete. *)
Theorem X7_pipeline_follows_protocol (it : item) (tr : list event) (ps : pstate) :
  run urlparse it Pending tr ps ->
  exists full,
    protocol it full /\ tr `prefix_of` full /\
    (forall k, ps = Returned k -> tr = full).
Proof.
  intros Htr%run_trace_at. destruct ps; unfold trace_at in Htr.
  - subst. exists [Count Failed]. split; [constructor|]. split; [|done].
    by exists [Count Failed].
  - destruct Htr as [body ->]. exists (opening it body ++ [Count Failed]).
    split; [constructor|]. split; [|done]. by exists [Count Failed].
  - destruct Htr as [body ->].
    exists (opening it body ++ polling process_id 0 ++ [Count Failed]).
    split; [constructor|]. split; [|done]. exists [Sleep 5; Count Failed].
    by rewrite <- !app_assoc.
  - destruct Htr as [body ->].
    exists (opening it body ++ polling process_id 0 ++ [Count Failed]).
    split; [constructor|]. split; [|done]. exists [Count Failed].
    by rewrite <- !app_assoc.
  - destruct Htr as (body & k & ->).
    exists (opening it body ++ polling process_id (S k) ++ [Count Failed]).
    split; [constructor|]. split; [|done]. exists [Get process_id; Count Failed].
    rewrite polling_S. by rewrite <- !app_assoc.
  - destruct Htr as (body & k & ->).
    exists (opening it body ++ polling process_id (S k) ++ [Count Failed]).
    split; [constructor|]. split; [|done]. exists [Count Failed].
    by rewrite <- !app_assoc.
  - exists tr. split; [done|]. split; [|done]. exists []. by rewrite app_nil_r.
  - destruct Htr as (full & Hp & Hpre). exists full. done.
Qed.

(** Turns of the loop that are answered with a status in progress. *)
Lemma play_answered_with it g pid p s k :
  status p = Some s -> in_progress s = true ->
  play urlparse it g (LoopSleep pid (Some p)) (answered_with p k)
    = (g, LoopSleep pid (Some p), concat (replicate k [Get pid; Sleep 5])).
Proof.
  intros Hs Hp. induction k as [|k IH]; [done|].
  unfold answered_with in *. simpl. unfold while_test. rewrite Hs, Hp.
  simpl in IH. by rewrite IH.
Qed.

(** X8. The poll loop has no bound of its own: as long as the answers
    carry a status in {CREATED, WAITING, RUNNING}, every turn issues one
    more status request and sleeps again, the pipeline stays in the loop,
    and neither the counters nor the disk change. *)
Theorem X8_polls_as_long_as_in_progress (it : item) (g : globals) (pid : string)
    (p : payload) (s : string) (k : nat) :
  status p = Some s -> in_progress s = true ->
  let '(g', ps', tr) :=
    play urlparse it g (LoopSleep pid (Some p)) (answered_with p k) in
  g' = g /\ ps' = LoopSleep pid (Some p) /\
  length (filter (fun e => is_get e = true) tr) = k /\
  clock 0 tr = (5 * Z.of_nat k)%Z.
Proof.
  intros Hs Hp. rewrite (play_answered_with it g pid p s k Hs Hp).
  split; [done|]. split; [done|]. clear.
  assert (forall now, clock now (concat (replicate k [Get pid; Sleep 5]))
                      = (now + 5 * Z.of_nat k)%Z) as Hclock.
  { induction k as [|k IH]; intros now; simpl; [lia|]. rewrite IH. lia. }
  split; [clear Hclock|by rewrite Hclock].
  induction k as [|k IH]; [done|].
  change (concat (replicate (S k) [Get pid; Sleep 5]))
    with ([Get pid; Sleep 5] ++ concat (replicate k [Get pid; Sleep 5])).
  rewrite filter_app, length_app, IH. reflexivity.
Qed.

(** X9. A resumption that ends in an exception counts nothing and writes
    nothing, and directories apart leaves the globals as they were.  In
    particular a status answer without the key "status" raises [KeyError]
    at the test of the loop, whatever else the answer holds. *)
Theorem X9_raising_counts_and_writes_nothing (it : item) (g : globals)
    (ps : pstate) (inp : resume) (g' : globals) (e : exn) (evs : list event) :
  process_image urlparse it g ps inp = Some (g', Raised e, evs) ->
  counts g' = counts g /\ no_credits g' = no_credits g /\
  files (disk g') = files (disk g) /\
  Forall (fun ev => exists d, ev = Mkdir d) evs /\
  (forall pid p, status p = None ->
     process_image urlparse it g (AwaitNextStatus pid) (Status (Json (Some p)))
       = Some (g, Raised KeyError, [])
     /\ process_image urlparse it g (InitialSleep pid (Some p)) Wake
       = Some (g, Raised KeyError, [])).
Proof.
  intros H.
  pose proof (process_image_counts _ _ _ _ _ _ _ _ H) as Hc.
  destruct (process_image_disk _ _ _ _ _ _ _ _ H)
    as [_ [(Hf & _ & _)|(pl & _ & ? & _)]]; [|done].
  split; [done|]. split; [|split; [done|split]].
  - unfold process_image in H. destruct ps, inp; try discriminate;
      unfold start, submitted, submit_image_for_processing,
        check_processing_status, while_test, finish in H;
      repeat case_match; simplify_eq/=; done.
  - unfold process_image in H. destruct ps, inp; try discriminate;
      unfold start, submitted, submit_image_for_processing,
        check_processing_status, while_test, finish in H;
      repeat case_match; simplify_eq/=; repeat constructor; eauto.
  - intros pid p Hp. simpl. unfold while_test. by rewrite Hp.
Qed.

End ProtocolTheorems.

(** ** Reading the task file *)

Lemma blank_split_from cur s :
  blank s = true -> split_from cur s = flush cur.
Proof.
  revert cur. unfold blank. induction s as [|c s IH]; intros cur H; simpl in *; [done|].
  apply andb_true_iff in H as [Hc Hs]. rewrite Hc, (IH EmptyString Hs). simpl.
  by rewrite app_nil_r.
Qed.

Lemma rstrip_empty s : rstrip s = EmptyString -> blank s = true.
Proof.
  unfold blank. induction s as [|c s IH]; simpl; [done|].
  destruct (rstrip s) eqn:Hr; [|done].
  destruct (isspace c) eqn:Hc; [|done]. intros _. by rewrite IH.
Qed.

Lemma blank_rstrip s : blank s = true -> rstrip s = EmptyString.
Proof.
  unfold blank. induction s as [|c s IH]; simpl; [done|].
  intros [Hc Hs]%andb_true_iff. by rewrite (IH Hs), Hc.
Qed.

Lemma split_from_rstrip cur s : split_from cur (rstrip s) = split_from cur s.
Proof.
  revert cur. induction s as [|c s IH]; intros cur; simpl; [done|].
  destruct (rstrip s) as [|c' r] eqn:Hr.
  - apply rstrip_empty in Hr.
    destruct (isspace c) eqn:Hc; simpl; rewrite ?Hc, !(blank_split_from _ s Hr).
    + simpl. by rewrite app_nil_r.
    + done.
  - simpl. destruct (isspace c); by rewrite <- IH.
Qed.

Lemma split_lstrip s : split (lstrip s) = split s.
Proof.
  unfold split. induction s as [|c s IH]; simpl; [done|].
  destruct (isspace c) eqn:Hc; [done|]. simpl. by rewrite Hc.
Qed.

Lemma split_strip s : split (strip s) = split s.
Proof. unfold strip, split. rewrite split_from_rstrip. apply split_lstrip. Qed.

Lemma blank_lstrip s : blank (lstrip s) = blank s.
Proof.
  unfold blank. induction s as [|c s IH]; simpl; [done|].
  destruct (isspace c) eqn:Hc; simpl; [done|]. by rewrite Hc.
Qed.

Lemma truthy_strip s : truthy (strip s) = negb (blank s).
Proof.
  unfold truthy, strip. rewrite <- blank_lstrip.
  destruct (blank (lstrip s)) eqn:Hb.
  - by rewrite (blank_rstrip _ Hb).
  - destruct (rstrip (lstrip s)) eqn:Hr; [|done].
    apply rstrip_empty in Hr. congruence.
Qed.

Lemma blank_free_app a b :
  blank_free a -> blank_free b -> blank_free (String.append a b).
Proof.
  unfold blank_free. induction a as [|c a IH]; simpl; [done|].
  intros [Hc Ha]%Forall_cons Hb. constructor; [done|]. by apply IH.
Qed.

Lemma append_not_empty a c :
  String.append a (String c EmptyString) <> EmptyString.
Proof. by destruct a. Qed.

(** Every word that [split] gives is a word, given that the word being
    read is free of white space. *)
Lemma flush_words cur : blank_free cur -> Forall word (flush cur).
Proof.
  intros Hcur. destruct cur; simpl; constructor; [|constructor]. by split.
Qed.

Lemma split_from_words cur s :
  blank_free cur -> Forall word (split_from cur s).
Proof.
  revert cur. induction s as [|c s IH]; intros cur Hcur; simpl.
  - by apply flush_words.
  - destruct (isspace c) eqn:Hc.
    + apply Forall_app. split; [by apply flush_words|apply IH; constructor].
    + apply IH. apply blank_free_app; [done|]. by repeat constructor.
Qed.

Lemma split_from_not_blank cur s :
  blank s = false -> split_from cur s <> [].
Proof.
  revert cur. unfold blank. induction s as [|c s IH]; intros cur H; simpl in *; [done|].
  destruct (isspace c) eqn:Hc; simpl in H.
  - intros [_ Hnil]%app_eq_nil. by eapply IH.
  - clear IH H. generalize (append_not_empty cur c).
    generalize (String.append cur (String c EmptyString)). clear.
    induction s as [|c s IH]; intros w Hw; simpl.
    + by destruct w.
    + destruct (isspace c).
      * destruct w; [done|]. done.
      * apply IH. apply append_not_empty.
Qed.

Lemma read_image_tasks_eq lines :
  read_image_tasks lines
  = map split (filter (fun line => blank line = false) lines).
Proof.
  unfold read_image_tasks. induction lines as [|l lines IH]; [done|].
  rewrite !filter_cons. rewrite truthy_strip.
  destruct (blank l) eqn:Hb; simpl; [done|].
  by rewrite split_strip, IH.
Qed.

(** X10. The task list holds, in order, the words of every line that is
    not blank: [strip] changes nothing to the words, and a line is dropped
    exactly when it holds white space only.  Every row has at least one
    word, and every word is non-empty and free of white space. *)
Theorem X10_rows_are_words_of_non_blank_lines (lines : list string) :
  read_image_tasks lines
    = map split (filter (fun line => blank line = false) lines)
  /\ Forall (fun row => row <> [] /\ Forall word row) (read_image_tasks lines).
Proof.
  split; [apply read_image_tasks_eq|]. rewrite read_image_tasks_eq.
  apply Forall_forall.
  intros row (l & -> & Hl)%list_elem_of_fmap.
  apply list_elem_of_filter in Hl as [Hb _]. split.
  - by apply split_from_not_blank.
  - apply split_from_words. constructor.
Qed.

Lemma append_nil s : String.append EmptyString s = s.
Proof. reflexivity. Qed.

Lemma append_cons a s t :
  String.append (String a s) t = String a (String.append s t).
Proof. reflexivity. Qed.

Lemma append_snoc cur c w :
  String.append (String.append cur (String c EmptyString)) w
  = String.append cur (String c w).
Proof.
  induction cur as [|a cur IH]; rewrite ?append_nil, ?append_cons; [done|].
  by rewrite IH.
Qed.

Lemma append_empty_r s : String.append s EmptyString = s.
Proof.
  induction s as [|a s IH]; rewrite ?append_nil, ?append_cons; [done|].
  by rewrite IH.
Qed.

Lemma split_from_blank cur ws s :
  blank ws = true -> ws <> EmptyString ->
  split_from cur (String.append ws s) = flush cur ++ split_from EmptyString s.
Proof.
  revert cur. unfold blank.
  induction ws as [|c ws IH]; intros cur Hb Hne; [done|].
  rewrite append_cons. simpl in *.
  apply andb_true_iff in Hb as [Hc Hws]. rewrite Hc. f_equal.
  destruct ws as [|c' ws']; [done|].
  by rewrite (IH EmptyString Hws).
Qed.

Lemma split_from_leading ws s :
  blank ws = true ->
  split_from EmptyString (String.append ws s) = split_from EmptyString s.
Proof.
  intros Hb. destruct ws as [|c ws]; [done|]. by rewrite split_from_blank.
Qed.

Lemma split_from_word cur w s :
  blank_free w ->
  split_from cur (String.append w s) = split_from (String.append cur w) s.
Proof.
  revert cur. unfold blank_free.
  induction w as [|c w IH]; intros cur Hw.
  - by rewrite append_nil, append_empty_r.
  - rewrite append_cons. simpl in *.
    apply Forall_cons in Hw as [Hc Hw]. rewrite Hc, (IH _ Hw). by rewrite append_snoc.
Qed.

(** X11. A line made of a source and a destination, with white space
    between them and any white space around them, gives the row of these
    two words. *)
Theorem X11_task_line_gives_source_and_destination
    (pre src mid dst post : string) :
  blank pre = true -> blank mid = true -> mid <> EmptyString ->
  blank post = true -> word src -> word dst ->
  read_image_tasks
    [String.append pre (String.append src
       (String.append mid (String.append dst post)))]
  = [[src; dst]].
Proof.
  intros Hpre Hmid Hne Hpost [Hs Hsrc] [Hd Hdst].
  set (line := String.append pre (String.append src
                 (String.append mid (String.append dst post)))).
  assert (split line = [src; dst]) as Hsplit.
  { unfold split, line. rewrite split_from_leading by done.
    rewrite split_from_word by done. rewrite append_nil.
    rewrite split_from_blank by done.
    rewrite split_from_word by done. rewrite append_nil.
    rewrite blank_split_from by done.
    destruct src, dst; done. }
  assert (blank line = false) as Hb.
  { destruct (blank line) eqn:Hb; [|done].
    apply blank_split_from with (cur := EmptyString) in Hb.
    unfold split in Hsplit. rewrite Hsplit in Hb. done. }
  rewrite read_image_tasks_eq, filter_cons, decide_True by done.
  simpl. by rewrite Hsplit.
Qed.

(** ** What [main] starts *)

Lemma coroutines_items folder rows its :
  coroutines folder rows = Ok its ->
  Forall2 (fun row it => exists img out,
             row = [img; out] /\ it = task_item folder img out) rows its.
Proof.
  revert its. induction rows as [|row rows IH]; intros its H; simpl in H.
  - simplify_eq. constructor.
  - destruct row as [|img [|out [|more row]]]; try done. simpl in H.
    destruct (coroutines folder rows) as [its'|]; [|done]. simpl in H.
    simplify_eq. constructor; [by eexists _, _|by apply IH].
Qed.

Lemma coroutines_Ok folder rows :
  Forall (fun row : list string => length row = 2) rows ->
  exists its, coroutines folder rows = Ok its.
Proof.
  induction 1 as [|row rows Hrow _ [its IH]]; simpl; [by eexists|].
  destruct row as [|img [|out [|more row]]]; try done. simpl.
  rewrite IH. simpl. by eexists.
Qed.

Lemma coroutines_Raise folder rows :
  ~ Forall (fun row : list string => length row = 2) rows ->
  coroutines folder rows = Raise ValueError.
Proof.
  induction rows as [|row rows IH]; intros Hbad; simpl.
  - destruct Hbad. constructor.
  - destruct row as [|img [|out [|more row]]]; try done. simpl.
    rewrite IH; [done|]. intros Hrows. apply Hbad. by constructor.
Qed.

(** X12. [main] starts one pipeline for each of the first rows of the task
    list, in their order: all rows without a limit, the first [limit] rows
    (or all, when there are fewer) with one.  Row [i] gives task [i], with
    the first word as image and the second, under the output folder, as
    destination.  Every task is pending, the counters are at zero, the flag
    is not set, and the semaphore has [concurrency] slots. *)
Theorem X12_main_starts_first_rows_in_order (concurrency : Z) (limit : option Z)
    (output_folder : string) (image_tasks : list (list string)) (tok : token)
    (fs : filesystem) (w0 : world) :
  main concurrency limit output_folder image_tasks tok fs = Ok w0 ->
  length (tasks w0) = kept limit (length image_tasks)
  /\ (forall i t, tasks w0 !! i = Some t ->
        exists img out,
          image_tasks !! i = Some [img; out] /\
          t = (task_item (Path output_folder) img out, Pending))
  /\ counts (shared w0) = mkCounts 0 0 0
  /\ no_credits (shared w0) = false
  /\ semaphore w0 = Z.to_nat concurrency
  /\ log w0 = [].
Proof.
  unfold main. intros H.
  destruct (0 <? concurrency)%Z eqn:Hc; [|done]. simpl in H.
  assert (forall l, limit = Some l -> (0 < l)%Z) as Hpos.
  { intros l ->. simpl in H. destruct (0 <? l)%Z eqn:Hl; [|done]. by apply Z.ltb_lt. }
  destruct (match limit with Some l => assert (0 <? l)%Z | None => Ok tt end); [|done].
  simpl in H. destruct (mkdir fs (Path output_folder)) as [fs1|]; [|done].
  simpl in H. destruct (assert (bool_decide (is_Some (access_token tok)))); [|done].
  simpl in H.
  destruct (coroutines (Path output_folder) (limited limit image_tasks))
    as [its|] eqn:Hits; [|done].
  simpl in H. unfold gather_with_concurrency in H.
  destruct (concurrency <? 0)%Z; [done|]. simplify_eq. simpl.
  apply coroutines_items in Hits. rewrite limited_take in Hits by done.
  split; [|split; [|done]].
  - rewrite length_map. rewrite <- (Forall2_length _ _ _ Hits).
    rewrite length_take. unfold kept. destruct limit; lia.
  - intros i [it ps] Hi. rewrite list_lookup_fmap in Hi.
    destruct (its !! i) as [it'|] eqn:Hit; simplify_eq/=.
    destruct (Forall2_lookup_r _ _ _ _ _ Hits Hit) as (row & Hrow & img & out & -> & ->).
    apply lookup_take_Some in Hrow as [Hrow _]. eauto.
Qed.

(** X13. [main] gets as far as starting the batch exactly when the
    concurrency is positive, the limit (if any) is positive, the output
    folder can be made, the token answer holds an access token, and every
    row it keeps has exactly two words.  When only the rows are at fault
    it stops on [ValueError] before any pipeline has run; a row beyond the
    limit is never looked at. *)
Theorem X13_main_starts_iff (concurrency : Z) (limit : option Z)
    (output_folder : string) (image_tasks : list (list string)) (tok : token)
    (fs : filesystem) :
  ((exists w0, main concurrency limit output_folder image_tasks tok fs = Ok w0)
   <-> (0 < concurrency)%Z
       /\ (forall l, limit = Some l -> (0 < l)%Z)
       /\ (exists fs1, mkdir fs (Path output_folder) = Ok fs1)
       /\ is_Some (access_token tok)
       /\ Forall (fun row : list string => length row = 2)
                 (take (kept limit (length image_tasks)) image_tasks))
  /\ ((0 < concurrency)%Z ->
      (forall l, limit = Some l -> (0 < l)%Z) ->
      (exists fs1, mkdir fs (Path output_folder) = Ok fs1) ->
      is_Some (access_token tok) ->
      ~ Forall (fun row : list string => length row = 2)
               (take (kept limit (length image_tasks)) image_tasks) ->
      main concurrency limit output_folder image_tasks tok fs = Raise ValueError).
Proof.
  assert (forall (Hc : (0 < concurrency)%Z)
                 (Hl : forall l, limit = Some l -> (0 < l)%Z)
                 fs1 (Hm : mkdir fs (Path output_folder) = Ok fs1)
                 (Ht : is_Some (access_token tok)),
            main concurrency limit output_folder image_tasks tok fs
            = do its <- coroutines (Path output_folder)
                          (take (kept limit (length image_tasks)) image_tasks);
              gather_with_concurrency concurrency its
                (mkGlobals (mkCounts 0 0 0) false fs1)) as Hmain.
  { intros Hc Hl fs1 Hm Ht. unfold main.
    rewrite (proj2 (Z.ltb_lt 0 concurrency) Hc). simpl.
    assert (match limit with Some l => assert (0 <? l)%Z | None => Ok tt end = Ok tt)
      as ->.
    { destruct limit as [l|]; [|done].
      by rewrite (proj2 (Z.ltb_lt 0 l) (Hl l eq_refl)). }
    simpl. rewrite Hm. simpl. rewrite bool_decide_eq_true_2 by done. simpl.
    by rewrite limited_take. }
  split; [split|].
  - intros [w0 H]. unfold main in H.
    destruct (0 <? concurrency)%Z eqn:Hc; [|done]. simpl in H.
    apply Z.ltb_lt in Hc.
    assert (forall l, limit = Some l -> (0 < l)%Z) as Hpos.
    { intros l ->. simpl in H. destruct (0 <? l)%Z eqn:Hl; [|done]. by apply Z.ltb_lt. }
    destruct (match limit with Some l => assert (0 <? l)%Z | None => Ok tt end); [|done].
    simpl in H. destruct (mkdir fs (Path output_folder)) as [fs1|]; [|done].
    simpl in H.
    destruct (bool_decide (is_Some (access_token tok))) eqn:Ht; [|done].
    apply bool_decide_eq_true_1 in Ht. simpl in H.
    destruct (coroutines (Path output_folder) (limited limit image_tasks))
      as [its|] eqn:Hits; [|done].
    repeat split; eauto.
    apply coroutines_items in Hits. rewrite limited_take in Hits by done.
    apply Forall_forall. intros row Hrow.
    apply list_elem_of_lookup in Hrow as [i Hi].
    destruct (Forall2_lookup_l _ _ _ _ _ Hits Hi) as (it & _ & img & out & -> & _).
    done.
  - intros (Hc & Hl & [fs1 Hm] & Ht & Hrows).
    rewrite (Hmain Hc Hl fs1 Hm Ht).
    destruct (coroutines_Ok (Path output_folder) _ Hrows) as [its ->]. simpl.
    unfold gather_with_concurrency.
    destruct (concurrency <? 0)%Z eqn:Hneg; [lia|]. eauto.
  - intros Hc Hl [fs1 Hm] Ht Hrows.
    rewrite (Hmain Hc Hl fs1 Hm Ht). by rewrite coroutines_Raise.
Qed.

(** ** The renewal task *)

Lemma refresh_loop_answers period now answers k t tok :
  refresh_loop period now answers !! k = Some (t, tok) ->
  answers !! k = Some tok /\
  forall j a, j < k -> answers !! j = Some a -> is_Some (access_token a).
Proof.
  revert now k. induction answers as [|a answers IH]; intros now k H; [done|].
  simpl in H. destruct k as [|k]; simpl in *.
  - simplify_eq. split; [done|]. intros; lia.
  - destruct (access_token a) eqn:Ha; [|done].
    apply IH in H as [Hk Hbefore]. split; [done|].
    intros [|j] a' Hj Ha'; simpl in *; [simplify_eq; eauto|].
    eapply Hbefore; [|done]. lia.
Qed.

Lemma refresh_loop_length period now answers :
  Forall (fun a => is_Some (access_token a)) answers ->
  length (refresh_loop period now answers) = length answers.
Proof.
  intros H. revert now.
  induction H as [|a answers [x Ha] _ IH]; intros now; simpl; [done|].
  rewrite Ha. by rewrite IH.
Qed.

Lemma refresh_loop_stops period now answers i bad :
  answers !! i = Some bad -> access_token bad = None ->
  Forall (fun a => is_Some (access_token a)) (take i answers) ->
  length (refresh_loop period now answers) = S i.
Proof.
  revert now i. induction answers as [|a answers IH]; intros now i Hi Hbad Hgood; [done|].
  destruct i as [|i]; simpl in *.
  - simplify_eq. by rewrite Hbad.
  - apply Forall_cons in Hgood as [[x Ha] Hgood]. rewrite Ha. simpl.
    f_equal. by eapply IH.
Qed.

(** X15. The renewals are invoked at the multiples of one period, the one
    computed from the token of [get_api_token] (no time at all when that
    period is not positive): renewal number [k] happens at [(k + 1)] periods
    and receives answer number [k], and all answers before it held an
    access token. *)
Theorem X15_renewals_at_multiples_of_first_period (initial : token)
    (answers : list token) (k : nat) (t : Z) (tok : token) :
  token_refresh_task initial answers !! k = Some (t, tok) ->
  t = (Z.of_nat (S k) * Z.max 0 (refresh_period initial))%Z
  /\ answers !! k = Some tok
  /\ forall j a, j < k -> answers !! j = Some a -> is_Some (access_token a).
Proof.
  unfold token_refresh_task. intros H. split.
  - apply refresh_loop_times in H. lia.
  - by eapply refresh_loop_answers.
Qed.

(** X16. The task goes on as long as the answers hold an access token and
    ends with the first answer that does not: that answer is taken (it is
    the last renewal listed) and no renewal is invoked after it. *)
Theorem X16_renewal_ends_with_first_answer_without_token (initial : token)
    (answers : list token) :
  (Forall (fun a => is_Some (access_token a)) answers ->
     length (token_refresh_task initial answers) = length answers)
  /\ (forall i bad,
        answers !! i = Some bad -> access_token bad = None ->
        Forall (fun a => is_Some (access_token a)) (take i answers) ->
        length (token_refresh_task initial answers) = S i /\
        exists t, last (token_refresh_task initial answers) = Some (t, bad)).
Proof.
  unfold token_refresh_task. split; [apply refresh_loop_length|].
  intros i bad Hi Hbad Hgood.
  pose proof (refresh_loop_stops (refresh_period initial) 0 answers i bad Hi Hbad Hgood)
    as Hlen.
  split; [done|]. rewrite last_lookup, Hlen. simpl.
  destruct (refresh_loop (refresh_period initial) 0 answers !! i) as [[t tok]|] eqn:Hl.
  - apply refresh_loop_answers in Hl as [Hl _]. rewrite Hi in Hl. simplify_eq. eauto.
  - apply lookup_ge_None in Hl. lia.
Qed.

(** X17. When the endpoint issues every token with the lifetime of the
    first one, and that lifetime is positive, every token in force is
    renewed before it expires. *)
Theorem X17_constant_lifetime_renewed_in_time (initial : token)
    (answers : list token) (k : nat) (issue next : Z * token) :
  (0 < expires_in initial)%Z ->
  Forall (fun a => expires_in a = expires_in initial) answers ->
  issued initial answers !! k = Some issue ->
  issued initial answers !! S k = Some next ->
  (next.1 < expiry issue)%Z.
Proof.
  intros Hpos Hsame Hk Hnext. unfold issued in *. simpl in Hnext.
  destruct next as [t' tok']. unfold token_refresh_task in *.
  pose proof (refresh_loop_times _ _ _ _ _ _ Hnext) as Ht'.
  assert (0 <= refresh_period initial < expires_in initial)%Z as Hperiod.
  { unfold refresh_period. split; [apply Z.quot_pos; lia|].
    apply Z.quot_lt_upper_bound; lia. }
  destruct k as [|k]; simpl in Hk.
  - simplify_eq. unfold expiry. simpl. lia.
  - destruct issue as [t tok].
    pose proof (refresh_loop_times _ _ _ _ _ _ Hk) as Ht.
    apply refresh_loop_answers in Hk as [Hk _].
    rewrite Forall_lookup in Hsame. specialize (Hsame _ _ Hk).
    unfold expiry. simpl in *. lia.
Qed.

(** X18. A first lifetime of one second or less gives a period that is
    not positive: the sleeps take no time and every renewal is invoked at
    time 0, one after the other. *)
Theorem X18_no_wait_when_first_lifetime_at_most_one (initial : token)
    (answers : list token) (k : nat) (t : Z) (tok : token) :
  (expires_in initial <= 1)%Z ->
  token_refresh_task initial answers !! k = Some (t, tok) ->
  t = 0%Z.
Proof.
  intros Hle H. unfold token_refresh_task in H. apply refresh_loop_times in H.
  assert (refresh_period initial <= 0)%Z as Hp.
  { unfold refresh_period. destruct (decide (0 <= expires_in initial)%Z).
    - assert (expires_in initial = 0 \/ expires_in initial = 1)%Z as [-> | ->] by lia;
        by vm_compute.
    - apply Z.quot_le_upper_bound; lia. }
  lia.
Qed.

(** * The image URLs of a manifest *)

Lemma match_plain_split pattern text rest :
  match_plain pattern text = Some rest ->
  exists pre, text = String.append pre rest /\
              String.length pre = String.length pattern.
Proof.
  revert text. induction pattern as [|p pattern IH]; intros text H; simpl in H.
  - simplify_eq. by exists EmptyString.
  - destruct text as [|c text]; [done|].
    destruct (if Ascii.eqb p "." then negb (Ascii.eqb c "010") else Ascii.eqb p c);
      [|done].
    apply IH in H as (pre & -> & Hlen). exists (String c pre).
    rewrite append_cons. simpl. by rewrite Hlen.
Qed.

Lemma match_plain_more pattern text rest extra :
  match_plain pattern text = Some rest ->
  match_plain pattern (String.append text extra) = Some (String.append rest extra).
Proof.
  revert text. induction pattern as [|p pattern IH]; intros text H; simpl in H.
  - by simplify_eq.
  - destruct text as [|c text]; [done|]. rewrite append_cons. simpl.
    destruct (if Ascii.eqb p "." then negb (Ascii.eqb c "010") else Ascii.eqb p c);
      [|done].
    by apply IH.
Qed.

Lemma length_append a b :
  String.length (String.append a b) = String.length a + String.length b.
Proof.
  induction a as [|c a IH]; rewrite ?append_nil, ?append_cons; [done|].
  simpl. by rewrite IH.
Qed.

Lemma match_plain_slash pattern c text rest :
  match_plain (String "/" pattern) (String c text) = Some rest -> c = "/"%char.
Proof.
  change (match_plain (String "/" pattern) (String c text))
    with (if Ascii.eqb "/" c then match_plain pattern text else None).
  destruct (Ascii.eqb "/" c) eqn:Hc; [|done]. intros _.
  symmetry. by apply Ascii.eqb_eq.
Qed.

Lemma up_to_slash_split text name rest :
  up_to_slash text = (name, rest) ->
  text = String.append name rest /\ slash_free name.
Proof.
  revert name rest. unfold slash_free.
  induction text as [|c text IH]; intros name rest H; simpl in H.
  - simplify_eq. split; [done|constructor].
  - destruct (Ascii.eqb c "/") eqn:Hc.
    + simplify_eq. split; [done|constructor].
    + destruct (up_to_slash text) as [name' rest'] eqn:Hu. simplify_eq.
      destruct (IH _ _ eq_refl) as [-> Hfree]. split; [by rewrite append_cons|].
      simpl. constructor; [|done]. by apply Ascii.eqb_neq.
Qed.

Lemma up_to_slash_more text name c rest extra :
  up_to_slash text = (name, String c rest) ->
  up_to_slash (String.append text extra) = (name, String.append (String c rest) extra).
Proof.
  revert name. induction text as [|a text IH]; intros name H; simpl in H; [done|].
  rewrite append_cons. simpl.
  destruct (Ascii.eqb a "/") eqn:Ha.
  - simplify_eq. by rewrite append_cons.
  - destruct (up_to_slash text) as [name' rest'] eqn:Hu. simplify_eq.
    by rewrite (IH _ eq_refl).
Qed.

Lemma match_image_url_Some druid url name :
  match_image_url druid url = Some name ->
  exists rest rest' left_over,
    match_plain (String.append "https://stacks.stanford.edu/image/iiif/"
                   (String.append druid "/")) url = Some rest /\
    up_to_slash rest = (name, rest') /\ name <> EmptyString /\
    match_plain "/full/full/0/default.jpg" rest' = Some left_over.
Proof.
  unfold match_image_url. intros H.
  destruct (match_plain _ url) as [rest|] eqn:Hpre; [|done].
  destruct (up_to_slash rest) as [nm rest'] eqn:Hu.
  destruct nm as [|c nm]; [done|].
  destruct (match_plain "/full/full/0/default.jpg" rest') as [left_over|] eqn:Hpost;
    [|done].
  simplify_eq. by exists rest, rest', left_over.
Qed.

(** In X19 to X22 the DRUID is one that holds no operator of regular
    expressions other than the dot: for such a DRUID [match_image_url] is
    [re.match] with the pattern of line 68. *)

(** X19. The name taken from an image URL is the part of the URL between
    the slash that follows the DRUID and the next slash: it is not empty,
    holds no slash, and starts right after the 39 characters of the
    address, the DRUID and one slash. *)
Theorem X19_name_is_the_segment_after_the_druid (druid url name : string) :
  regex_plain druid = true ->
  match_image_url druid url = Some name ->
  name <> EmptyString /\ slash_free name /\
  exists before after,
    url = String.append before (String.append name (String "/" after)) /\
    String.length before = 39 + String.length druid + 1.
Proof.
  intros _ (rest & rest' & left_over & Hpre & Hu & Hne & Hpost)%match_image_url_Some.
  apply up_to_slash_split in Hu as [-> Hfree].
  apply match_plain_split in Hpre as (before & -> & Hlen).
  destruct rest' as [|c rest']; [done|].
  apply match_plain_slash in Hpost as ->.
  split; [done|]. split; [done|]. exists before, rest'. split; [done|].
  rewrite Hlen, !length_append. reflexivity.
Qed.

(** X20. The pattern is matched at the start of the URL only: whatever
    follows [default.jpg] is not looked at, the URL matches all the same
    and gives the same name. *)
Theorem X20_text_after_the_pattern_is_ignored (druid url name extra : string) :
  regex_plain druid = true ->
  match_image_url druid url = Some name ->
  match_image_url druid (String.append url extra) = Some name.
Proof.
  intros _ (rest & rest' & left_over & Hpre & Hu & Hne & Hpost)%match_image_url_Some.
  unfold match_image_url.
  rewrite (match_plain_more _ _ _ extra Hpre).
  destruct rest' as [|c rest']; [done|].
  rewrite (up_to_slash_more _ _ _ _ extra Hu).
  destruct name; [done|].
  by rewrite (match_plain_more _ _ _ extra Hpost).
Qed.

Lemma image_data_of_Ok druid urls data :
  image_data_of druid urls = Ok data ->
  Forall2 (fun url d => exists name,
             match_image_url druid url = Some name /\
             d = (url, json_name druid name)) urls data.
Proof.
  revert data. induction urls as [|url urls IH]; intros data H; simpl in H.
  - simplify_eq. constructor.
  - destruct (match_image_url druid url) as [name|] eqn:Hm; [|done].
    destruct (image_data_of druid urls) as [data'|]; [|done]. simpl in H.
    simplify_eq. constructor; [by exists name|by apply IH].
Qed.

Lemma image_data_of_matching druid urls :
  Forall (fun url => is_Some (match_image_url druid url)) urls ->
  exists data, image_data_of druid urls = Ok data.
Proof.
  induction 1 as [|url urls [name Hm] _ [data IH]]; simpl; [by eexists|].
  rewrite Hm, IH. simpl. by eexists.
Qed.

Lemma image_data_of_Raise druid urls e :
  image_data_of druid urls = Raise e ->
  e = AssertionError /\
  ~ Forall (fun url => is_Some (match_image_url druid url)) urls.
Proof.
  induction urls as [|url urls IH]; simpl; [done|].
  destruct (match_image_url druid url) as [name|] eqn:Hm.
  - destruct (image_data_of druid urls) as [data'|e']; [done|]. simpl.
    intros [= <-]. destruct (IH eq_refl) as [-> Hbad]. split; [done|].
    intros [_ Hall]%Forall_cons. done.
  - intros [= <-]. split; [done|].
    intros [[? Hsome] _]%Forall_cons. congruence.
Qed.

(** X21. What [get_image_data_from_manifest] returns lists the image URLs
    of the one sequence in the order of the canvases and of their images,
    each with the file name made of the DRUID, a slash, the name taken from
    the URL and ".json"; it has as many entries as the sequence has
    canvases. *)
Theorem X21_one_entry_per_image_in_order (druid : string) (m : manifest)
    (data : list (string * string)) :
  regex_plain druid = true ->
  get_image_data_from_manifest druid m = Ok data ->
  exists seq,
    sequences m = [seq]
    /\ map fst data = concat (map images (canvases seq))
    /\ length data = length (canvases seq)
    /\ Forall (fun d => exists name,
                 match_image_url druid d.1 = Some name /\
                 d.2 = json_name druid name) data.
Proof.
  unfold get_image_data_from_manifest. intros _ H.
  destruct (sequences m) as [|seq [|more l]]; try done. exists seq.
  destruct (Nat.eqb _ _) eqn:Hlen; [|done]. simpl in H.
  apply Nat.eqb_eq in Hlen. apply image_data_of_Ok in H.
  split; [done|].
  assert (map fst data = concat (map images (canvases seq))) as Hfst.
  { revert H. generalize (concat (map images (canvases seq))). clear.
    intros urls H. induction H as [|url d urls data (name & _ & ->) _ IH]; [done|].
    simpl. by rewrite IH. }
  split; [done|]. split.
  - rewrite <- Hlen, <- Hfst. by rewrite length_map.
  - clear Hfst Hlen. revert H. generalize (concat (map images (canvases seq))).
    intros urls H. induction H as [|url d urls data (name & Hm & ->) _ IH];
      constructor; [by exists name|done].
Qed.

(** X22. [get_image_data_from_manifest] returns exactly when the manifest
    has one sequence, the images of its canvases are, taken together, as
    many as the canvases, and every image URL matches the pattern; in every
    other case it stops on [AssertionError].  The count is taken over the
    whole sequence: it does not tell one image per canvas from two images
    on one canvas and none on another. *)
Theorem X22_returns_iff_counts_agree_and_urls_match (druid : string)
    (m : manifest) :
  regex_plain druid = true ->
  ((exists data, get_image_data_from_manifest druid m = Ok data)
   <-> exists seq,
         sequences m = [seq]
         /\ length (concat (map images (canvases seq))) = length (canvases seq)
         /\ Forall (fun url => is_Some (match_image_url druid url))
                   (concat (map images (canvases seq))))
  /\ (forall e, get_image_data_from_manifest druid m = Raise e -> e = AssertionError).
Proof.
  unfold get_image_data_from_manifest. intros _. split; [split|].
  - intros [data H].
    destruct (sequences m) as [|seq [|more l]]; try done. exists seq.
    destruct (Nat.eqb _ _) eqn:Hlen; [|done]. simpl in H.
    apply Nat.eqb_eq in Hlen. split; [done|]. split; [done|].
    apply image_data_of_Ok in H. apply Forall_forall. intros url Hurl.
    apply list_elem_of_lookup in Hurl as [i Hi].
    destruct (Forall2_lookup_l _ _ _ _ _ H Hi) as (d & _ & name & Hm & _). eauto.
  - intros (seq & -> & Hlen & Hall).
    rewrite (proj2 (Nat.eqb_eq _ _) Hlen). simpl.
    by apply image_data_of_matching.
  - intros e H.
    destruct (sequences m) as [|seq [|more l]]; try by simplify_eq.
    destruct (Nat.eqb _ _); simpl in H; [|by simplify_eq].
    by apply image_data_of_Raise in H as [-> _].
Qed.

(** * Instances of the further properties *)

Lemma X1_batch_never_stuck_witness :
  exists i inp w', sem_coroutine urlparse_unused quota_start i inp = Some w'.
Proof.
  refine (X1_batch_never_stuck urlparse_unused 1
            (map fst (tasks quota_start)) (shared quota_start)
            quota_start quota_start _ _ (reach_start _ _) _).
  - reflexivity.
  - vm_compute. reflexivity.
  - exists 0, (mkItem (Str "img1.jpg") (Path "output/out1.json")), Pending.
    vm_compute. split; reflexivity.
Defined.

Lemma X2_no_slot_no_start_witness :
  exec urlparse_unused no_slot [(0, Wake)] = no_slot.
Proof.
  refine (X2_no_slot_no_start urlparse_unused [first_item] clean_globals
            no_slot _ _ (exec_reachable _ _ _)).
  vm_compute. reflexivity.
Defined.

Lemma X3_counters_while_running_witness :
  total (counts (shared quota_start)) <= 0 + 2.
Proof.
  refine (proj1 (proj2 (X3_counters_while_running urlparse_unused 1
            (map fst (tasks quota_start)) (shared quota_start)
            quota_start quota_start (exec urlparse_unused quota_start [(0, Wake)])
            _ (reach_start _ _) _))).
  - vm_compute. reflexivity.
  - exists 0, Wake. vm_compute. reflexivity.
Defined.

Lemma X4_only_processed_destinations_written_witness :
  files (disk (shared processed_end)) !! Path "img1.jpg"
    = files (disk (shared processed_start)) !! Path "img1.jpg"
  \/ exists j it dumped,
       tasks processed_end !! j = Some (it, Returned Processed) /\
       output_path it = Path "img1.jpg" /\
       files (disk (shared processed_end)) !! Path "img1.jpg"
         = Some (JsonDump dumped).
Proof.
  refine (X4_only_processed_destinations_written urlparse_unused 1
            (map fst (tasks processed_start)) (shared processed_start)
            processed_start processed_end (Path "img1.jpg")
            _ (exec_reachable _ _ _) _); vm_compute; reflexivity.
Defined.

Lemma X5_processed_item_skipped_on_rerun_witness :
  is_file (disk (shared processed_end)) (Path "output/out1.json") = true.
Proof.
  refine (proj1 (X5_processed_item_skipped_on_rerun urlparse_unused 1
            (map fst (tasks processed_start)) (shared processed_start)
            processed_start processed_end 0 first_item
            _ (exec_reachable _ _ _) _)).
  - vm_compute. reflexivity.
  - vm_compute. reflexivity.
Defined.

Lemma X6_flag_only_read_at_start_witness :
  process_image urlparse_unused first_item (set_no_credits clean_globals)
    AwaitSubmit (Submitted (Response 200 (Some "42")))
  = Some (set_no_credits clean_globals, AwaitFirstStatus "42", [Get "42"]).
Proof.
  refine (X6_flag_only_read_at_start urlparse_unused first_item clean_globals
            AwaitSubmit (Submitted (Response 200 (Some "42"))) _).
  discriminate.
Defined.

Lemma X7_pipeline_follows_protocol_witness :
  exists full,
    protocol first_item full /\ polled.2 `prefix_of` full /\
    (forall k, polled.1.2 = Returned k -> polled.2 = full).
Proof.
  exact (X7_pipeline_follows_protocol urlparse_unused first_item polled.2 polled.1.2
           (play_run urlparse_unused first_item clean_globals Pending poll_inputs)).
Defined.

Lemma X8_polls_as_long_as_in_progress_witness :
  let '(g', ps', tr) :=
    play urlparse_unused first_item clean_globals (LoopSleep "42" (Some running))
      (answered_with running 3) in
  g' = clean_globals /\ ps' = LoopSleep "42" (Some running) /\
  length (filter (fun e => is_get e = true) tr) = 3 /\
  clock 0 tr = (5 * Z.of_nat 3)%Z.
Proof.
  refine (X8_polls_as_long_as_in_progress urlparse_unused first_item clean_globals
            "42" running "RUNNING" 3 _ _); reflexivity.
Defined.

Lemma X9_raising_counts_and_writes_nothing_witness :
  counts (shared missing_end) = counts (shared missing_start).
Proof.
  refine (proj1 (X9_raising_counts_and_writes_nothing urlparse_unused
            (mkItem (Str "missing.jpg") (Path "output/out1.json"))
            (shared missing_start) Pending Wake (shared missing_end)
            AssertionError [Mkdir (Path "output")] _)).
  vm_compute. reflexivity.
Defined.

Lemma X11_task_line_gives_source_and_destination_witness :
  read_image_tasks ["  img1.jpg   out1.json "] = [["img1.jpg"; "out1.json"]].
Proof.
  refine (X11_task_line_gives_source_and_destination
            "  " "img1.jpg" "   " "out1.json" " " _ _ _ _ _ _);
    try reflexivity; try discriminate;
    (split; [discriminate|repeat constructor]).
Defined.

Lemma X12_main_starts_first_rows_in_order_witness :
  length (tasks quota_start) = kept None 2.
Proof.
  exact (proj1 (X12_main_starts_first_rows_in_order 1 None "output" two_tasks
                  a_token two_images quota_start quota_start_main)).
Defined.

Lemma X13_main_starts_iff_witness :
  main 1 (Some 1%Z) "output"
    [["img1.jpg"; "out 1.json"; "more"]; ["img2.jpg"]] a_token two_images
  = Raise ValueError.
Proof.
  refine (proj2 (X13_main_starts_iff 1 (Some 1%Z) "output"
            [["img1.jpg"; "out 1.json"; "more"]; ["img2.jpg"]] a_token two_images)
            _ _ _ _ _).
  - reflexivity.
  - intros l [= <-]. reflexivity.
  - eexists. vm_compute. reflexivity.
  - by eexists.
  - vm_compute. intros H. inversion H as [|? ? Hlen]. discriminate Hlen.
Defined.

Lemma X15_renewals_at_multiples_of_first_period_witness :
  540%Z = (Z.of_nat 2 * Z.max 0 (refresh_period long_lived))%Z.
Proof.
  refine (proj1 (X15_renewals_at_multiples_of_first_period long_lived
            [short_lived_1; short_lived_2] 1 540%Z short_lived_2 _)).
  reflexivity.
Defined.

Lemma X16_renewal_ends_with_first_answer_without_token_witness :
  length (token_refresh_task long_lived [same_lifetime; no_access; same_lifetime]) = 2.
Proof.
  refine (proj1 (proj2 (X16_renewal_ends_with_first_answer_without_token long_lived
            [same_lifetime; no_access; same_lifetime]) 1 no_access _ _ _)).
  - reflexivity.
  - reflexivity.
  - repeat constructor. by eexists.
Defined.

Lemma X17_constant_lifetime_renewed_in_time_witness :
  (540 < expiry (270%Z, same_lifetime))%Z.
Proof.
  refine (X17_constant_lifetime_renewed_in_time long_lived
            [same_lifetime; same_lifetime] 1 (270%Z, same_lifetime)
            (540%Z, same_lifetime) _ _ _ _).
  - reflexivity.
  - by repeat constructor.
  - reflexivity.
  - reflexivity.
Defined.

Lemma X18_no_wait_when_first_lifetime_at_most_one_witness :
  token_refresh_task one_second [same_lifetime; same_lifetime] !! 1
    = Some (0%Z, same_lifetime).
Proof.
  assert (exists t, token_refresh_task one_second [same_lifetime; same_lifetime] !! 1
                    = Some (t, same_lifetime)) as [t Ht] by (by eexists).
  rewrite Ht. f_equal. f_equal.
  refine (X18_no_wait_when_first_lifetime_at_most_one one_second
            [same_lifetime; same_lifetime] 1 t same_lifetime _ Ht).
  discriminate.
Defined.

Lemma X19_name_is_the_segment_after_the_druid_witness :
  "ab_1" <> EmptyString /\ slash_free "ab_1".
Proof.
  destruct (X19_name_is_the_segment_after_the_druid "ab"
              "https://stacks.stanford.edu/image/iiif/ab/ab_1/full/full/0/default.jpg"
              "ab_1" eq_refl eq_refl) as (Hne & Hfree & _).
  by split.
Defined.

Lemma X20_text_after_the_pattern_is_ignored_witness :
  match_image_url "ab"
    (String.append
       "https://stacks.stanford.edu/image/iiif/ab/ab_1/full/full/0/default.jpg"
       "?download=true")
  = Some "ab_1".
Proof.
  refine (X20_text_after_the_pattern_is_ignored "ab"
            "https://stacks.stanford.edu/image/iiif/ab/ab_1/full/full/0/default.jpg"
            "ab_1" "?download=true" _ _); reflexivity.
Defined.

Lemma X21_one_entry_per_image_in_order_witness :
  exists seq,
    sequences uneven = [seq]
    /\ map fst
         [("https://stacks.stanford.edu/image/iiif/ab/ab_1/full/full/0/default.jpg",
           "ab/ab_1.json");
          ("https://stacks.stanford.edu/image/iiif/ab/ab_2/full/full/0/default.jpg",
           "ab/ab_2.json")]
       = concat (map images (canvases seq)).
Proof.
  destruct (X21_one_entry_per_image_in_order "ab" uneven
              [("https://stacks.stanford.edu/image/iiif/ab/ab_1/full/full/0/default.jpg",
                "ab/ab_1.json");
               ("https://stacks.stanford.edu/image/iiif/ab/ab_2/full/full/0/default.jpg",
                "ab/ab_2.json")] eq_refl eq_refl) as (seq & Hs & Hfst & _).
  by exists seq.
Defined.

Lemma X22_returns_iff_counts_agree_and_urls_match_witness :
  exists data, get_image_data_from_manifest "ab" uneven = Ok data.
Proof.
  refine (proj2 (proj1 (X22_returns_iff_counts_agree_and_urls_match "ab" uneven _)) _).
  - reflexivity.
  - eexists. split; [reflexivity|]. split; [reflexivity|].
    repeat constructor; by eexists.
Defined.
